(** * cehighlighter.js: caret-stable syntax highlighting for a
      contenteditable element

    A shallow embedding of [src/cehighlighter.js] and the properties of its
    three layers: the offset mapper ([utils.getCaretOffsetWithin],
    [utils.setCaretPositionWithin]), the highlight renderer
    ([utils.escapeHTML], [utils.highlight]) and the input coordinator (the
    event handlers, the subscription table and the constructor).

    The browser is not part of the source.  What the code asks of it (the
    markup parser behind [innerHTML], the regular-expression engine behind
    [String.prototype.replace], string conversion, the global object) is
    gathered in the record [Host]; every definition that needs it takes a
    host, and no property below assumes anything about a host unless it says
    so in a hypothesis.

    Conventions of the model.  A string is a sequence of characters, and
    [length] counts them, as the source counts the code units of its
    strings.  A node is known by its place in the tree, so that [===] on
    nodes is equality of places.  A callback of the page is a name: applying
    it is recorded in [calls] and changes nothing else.  An event name is a
    string.  A computation of the source is a function from the state of the
    page to a completion (a value, or the exception thrown) and the state it
    leaves. *)

From Stdlib Require Import ZArith String Ascii List Bool Lia.
From stdpp Require Import base gmap strings list fin_maps pretty.

Set Warnings "-register-all".
Open Scope string_scope.
Open Scope list_scope.
Open Scope nat_scope.

(** ** JavaScript values *)

(** A JavaScript number.  A finite double is a (dyadic) rational, kept as a
    fraction [num/den]; the three non-finite doubles are apart.  The code
    only asks a number whether it is an integer and whether it is
    non-negative, which the fraction answers exactly. *)
Inductive number :=
  | Finite (num : Z) (den : positive)
  | NaN
  | Infinity (negative : bool).

(** A function object.  [UserFn] is a function of the embedding page (a
    callback); [BoundFn n] is the [n]-th function object created by
    [Function.prototype.bind] (every call of [bind] creates a new one). *)
Inductive fn :=
  | UserFn (id : nat)
  | BoundFn (id : nat).

#[global] Instance fn_eq_dec : EqDecision fn.
Proof. solve_decision. Defined.

(** A regular expression literal, and a highlight rule
    [{ pattern: ..., template: ... }] of [settings.regexs]. *)
Record RegExp := { source : string; flags : string }.
Record reg := { pattern : RegExp; template : string }.

Inductive value :=
  | VUndefined
  | VNull
  | VBool (b : bool)
  | VNumber (n : number)
  | VString (s : string)
  | VFunction (f : fn)
  | VRegexs (rs : list reg)      (* an array of highlight rules *)
  | VElement (id : nat)          (* an HTMLElement of the document *)
  | VInstance (el : nat)         (* a CEHighlighter object, [this.el = el] *)
  | VObject (id : nat).          (* any other object *)

(** [typeof n === 'number'] *)
Definition typeof_number (v : value) : bool :=
  match v with VNumber _ => true | _ => false end.

(** [typeof callback === 'function'] *)
Definition typeof_function (v : value) : bool :=
  match v with VFunction _ => true | _ => false end.

(** [n % 1]: the remainder has the sign of the dividend and is exact on
    doubles; it is [NaN] when [n] is not finite. *)
Definition rem1 (n : number) : number :=
  match n with
  | Finite num den => Finite (Z.rem num (Z.pos den)) den
  | NaN | Infinity _ => NaN
  end.

(** [x === 0] on numbers *)
Definition is_zero (n : number) : bool :=
  match n with Finite num _ => (num =? 0)%Z | _ => false end.

(** [x >= 0] on numbers *)
Definition ge_zero (n : number) : bool :=
  match n with
  | Finite num _ => (0 <=? num)%Z
  | NaN => false
  | Infinity negative => negb negative
  end.

(** The integer a JavaScript number of the source's loop counters stands
    for, and back. *)
Definition of_Z (z : Z) : value := VNumber (Finite z 1).
Definition of_nat (n : nat) : value := of_Z (Z.of_nat n).

(** ** Errors *)

(** The source throws plain [Error] objects told apart by their message;
    each constructor stands for one [throw] of the source (the message with
    its argument), or for an exception of the language or of the DOM. *)
Inductive error :=
  | Error_InvalidIndex (index : value)
      (* new Error('Invalid `index` parameter: ' + index) *)
  | Error_CallbackNotFunction
      (* new Error('Event callback must be a function') *)
  | Error_NoSupportForEvent (evtName : string)
      (* new Error('No support for the event: ' + evtName) *)
  | Error_UnsupportedBrowser
      (* new Error('CEHighlighter does not support that browser') *)
  | Error_InvalidEl
      (* new Error('Invalid `el` argument, HTMLElement required') *)
  | Error_InvalidOptions
      (* new Error('Invalid `options` argument, object required') *)
  | ReferenceError (identifier : string)
      (* reading an identifier no scope declares *)
  | TypeError (operation : string)
      (* a method called on a value that does not have it: [forEach] on
         what is not an array, [apply] on what is not a function *)
  | DOMException (name : string).
      (* IndexSizeError, SyntaxError, InvalidCharacterError *)

(** ** The document *)

(** A node below the editable element: a text node with its character data,
    or an element with its children. *)
Inductive node :=
  | TextNode (data : string)
  | ElementNode (childNodes : list node).

(** A node is referred to by the element the tree hangs from and the path of
    child indices that leads to it; the empty path is that element itself.
    Two references are the same node exactly when they are equal. *)
Definition NodeRef : Type := nat * list nat.

(** The text nodes of a subtree in document order, each with its path: what
    [treeWalker.nextNode()] yields, call after call, for the walker of
    [utils.createTreeWalker] (SHOW_TEXT, every node accepted). *)
Fixpoint textNodes (path : list nat) (n : node) : list (list nat * string) :=
  match n with
  | TextNode data => [(path, data)]
  | ElementNode childNodes =>
      (fix children (i : nat) (l : list node) : list (list nat * string) :=
         match l with
         | [] => []
         | c :: l' => textNodes (path ++ [i]) c ++ children (S i) l'
         end) 0%nat childNodes
  end.

Fixpoint childTextNodes (path : list nat) (i : nat) (l : list node)
  : list (list nat * string) :=
  match l with
  | [] => []
  | c :: l' => textNodes (path ++ [i]) c ++ childTextNodes path (S i) l'
  end.

(** [utils.createTreeWalker(node)] for the element [el] with the children
    [childNodes]: the root itself is an element, so the walk is over its
    descendants. *)
Definition createTreeWalker (el : nat) (childNodes : list node)
  : list (NodeRef * string) :=
  map (fun '(p, data) => ((el, p), data)) (childTextNodes [] 0 childNodes).

(** The logical text: the character data of the text nodes in document
    order. *)
Definition logicalText (walk : list (NodeRef * string)) : string :=
  foldr (fun '(_, data) acc => data +:+ acc) "" walk.

(** [window.getSelection()]: anchor and focus as (node, offset) boundary
    points; both nodes are [None] when the selection has no range. *)
Record Selection := {
  anchorNode : option NodeRef;
  anchorOffset : nat;
  focusNode : option NodeRef;
  focusOffset : nat
}.

Definition isCollapsed (sel : Selection) : bool :=
  bool_decide (anchorNode sel = focusNode sel ∧ anchorOffset sel = focusOffset sel).

(** The selection after [sel.removeAllRanges(); sel.addRange(range)] for a
    range collapsed at [(n, offset)]. *)
Definition collapsedAt (n : NodeRef) (offset : nat) : Selection :=
  {| anchorNode := Some n; anchorOffset := offset;
     focusNode := Some n; focusOffset := offset |}.

(** ** Offset mapper *)

Record Pos := { start : nat; end_ : nat }.

(** The loop of [utils.getCaretOffsetWithin] over the nodes the walker still
    has to yield, with the loop's variables [pos.start], [pos.end] and
    [isBeyondStart]. *)
Fixpoint getCaretOffset_loop (sel : Selection) (walk : list (NodeRef * string))
    (pos_start pos_end : nat) (isBeyondStart : bool) : Pos :=
  match walk with
  | [] => {| start := pos_start; end_ := pos_end |}
  | (currentNode, data) :: rest =>
      (* the second [if] of the body, and the next iteration *)
      let focus_part (pos_start : nat) (isBeyondStart : bool) : Pos :=
        if negb (isCollapsed sel) && bool_decide (Some currentNode = focusNode sel)
        then {| start := pos_start; end_ := pos_end + focusOffset sel |}
        else if negb (isCollapsed sel)
        then getCaretOffset_loop sel rest pos_start
               (pos_end + String.length data) isBeyondStart
        else getCaretOffset_loop sel rest pos_start pos_end isBeyondStart in
      if negb isBeyondStart && bool_decide (Some currentNode = anchorNode sel)
      then
        let pos_start := pos_start + anchorOffset sel in
        if isCollapsed sel
        then {| start := pos_start; end_ := pos_start |}
        else focus_part pos_start true
      else if negb isBeyondStart
      then focus_part (pos_start + String.length data) isBeyondStart
      else focus_part pos_start isBeyondStart
  end.

(** The loop of [utils.setCaretPositionWithin]: the node, its data and the
    offset in it at which the range is set, or [None] when the walker is
    exhausted before [currentPos >= index]. *)
Fixpoint setCaretPosition_loop (walk : list (NodeRef * string)) (index : Z)
    (currentPos : Z) : option (NodeRef * string * Z) :=
  match walk with
  | [] => None
  | (currentNode, data) :: rest =>
      let currentPos := (currentPos + Z.of_nat (String.length data))%Z in
      if (currentPos >=? index)%Z then
        let prevValue := (currentPos - Z.of_nat (String.length data))%Z in
        let offset := (index - prevValue)%Z in
        Some (currentNode, data, offset)
      else setCaretPosition_loop rest index currentPos
  end.

(** ** The host and the state of the page *)

(** One replacement of [String.prototype.replace]: the match is the span
    [m_index, m_index + m_length) of the subject, and its replacement is the
    template with its [$] references filled in, given as the pieces it is
    made of: text of the template itself, or a span copied from the subject
    (a captured group, the match, the text before or after it). *)
Inductive piece :=
  | Literal (s : string)
  | Copied (from len : nat).

Record MatchResult := {
  m_index : nat;
  m_length : nat;
  m_replacement : list piece
}.

Record Host := {
  (* the fragment parser behind the [innerHTML] setter *)
  parseHTML : string → list node;
  (* the matches [subject.replace(pattern, template)] replaces, left to
     right, as the regular-expression engine finds them *)
  replace_matches : RegExp → string → string → list MatchResult;
  (* ToString, where the DOM takes a string *)
  ToString : value → string;
  (* [input.value] read back after [input.value = s] *)
  input_value : string → string;
  (* !!document.querySelector && !!root.addEventListener *)
  supports : bool;
  (* the properties of the global object, where an identifier that no
     function scope declares is looked up *)
  window : gmap string value;
  (* [window.clipboardData.getData('Text')], where the host has it *)
  window_clipboardData : option string
}.

Record HTMLElement := {
  childNodes : list node;
  attributes : gmap string string;
  classList : list string;
  style : gmap string string;
  listeners : list (string * fn);
  offsetHeight : nat
}.

#[global] Instance HTMLElement_inhabited : Inhabited HTMLElement :=
  populate {| childNodes := []; attributes := ∅; classList := []; style := ∅;
              listeners := []; offsetHeight := 0 |}.

Inductive handler := OnPaste | OnInput | OnKeyPress.

(** Everything the program reads and writes.  [settings] and [events] are
    the two module-level objects of the source (one of each per loaded
    module, whatever the number of instances); the rest is the page. *)
Record World := {
  settings : gmap string value;
  events : gmap string value;
  elements : gmap nat HTMLElement;       (* the elements of the document *)
  selection : Selection;                 (* window.getSelection() *)
  bound : list (handler * nat);          (* functions made by bind: the
                                            handler and the [el] of [this] *)
  timers : list nat;                     (* setTimeout(..., 0) pending: the
                                            [el] of the deferred onInput *)
  calls : list (fn * value);             (* callbacks applied so far, with
                                            their [this] *)
  defaultPrevented : bool                (* of the event being handled *)
}.

(** ** Computations: state and exceptions *)

Inductive completion (A : Type) :=
  | Normal (a : A)
  | Throw (e : error).
Arguments Normal {A} a.
Arguments Throw {A} e.

Definition JS (A : Type) : Type := World → completion A * World.

#[global] Instance JS_ret : MRet JS := λ A a w, (Normal a, w).
#[global] Instance JS_bind : MBind JS := λ A B k m w,
  match m w with
  | (Normal a, w') => k a w'
  | (Throw e, w') => (Throw e, w')
  end.

Definition throw {A} (e : error) : JS A := λ w, (Throw e, w).
Definition get : JS World := λ w, (Normal w, w).
Definition put (w : World) : JS unit := λ _, (Normal tt, w).
Definition modify (f : World → World) : JS unit := λ w, (Normal tt, f w).

Definition set_settings (x : gmap string value) (w : World) : World :=
  {| settings := x; events := events w; elements := elements w;
     selection := selection w; bound := bound w; timers := timers w;
     calls := calls w; defaultPrevented := defaultPrevented w |}.
Definition set_events (x : gmap string value) (w : World) : World :=
  {| settings := settings w; events := x; elements := elements w;
     selection := selection w; bound := bound w; timers := timers w;
     calls := calls w; defaultPrevented := defaultPrevented w |}.
Definition set_elements (x : gmap nat HTMLElement) (w : World) : World :=
  {| settings := settings w; events := events w; elements := x;
     selection := selection w; bound := bound w; timers := timers w;
     calls := calls w; defaultPrevented := defaultPrevented w |}.
Definition set_selection (x : Selection) (w : World) : World :=
  {| settings := settings w; events := events w; elements := elements w;
     selection := x; bound := bound w; timers := timers w;
     calls := calls w; defaultPrevented := defaultPrevented w |}.
Definition set_bound (x : list (handler * nat)) (w : World) : World :=
  {| settings := settings w; events := events w; elements := elements w;
     selection := selection w; bound := x; timers := timers w;
     calls := calls w; defaultPrevented := defaultPrevented w |}.
Definition set_timers (x : list nat) (w : World) : World :=
  {| settings := settings w; events := events w; elements := elements w;
     selection := selection w; bound := bound w; timers := x;
     calls := calls w; defaultPrevented := defaultPrevented w |}.
Definition set_calls (x : list (fn * value)) (w : World) : World :=
  {| settings := settings w; events := events w; elements := elements w;
     selection := selection w; bound := bound w; timers := timers w;
     calls := x; defaultPrevented := defaultPrevented w |}.
Definition set_defaultPrevented (x : bool) (w : World) : World :=
  {| settings := settings w; events := events w; elements := elements w;
     selection := selection w; bound := bound w; timers := timers w;
     calls := calls w; defaultPrevented := x |}.

(** ** The DOM operations the source calls *)

Definition with_childNodes (x : list node) (e : HTMLElement) : HTMLElement :=
  {| childNodes := x; attributes := attributes e; classList := classList e;
     style := style e; listeners := listeners e; offsetHeight := offsetHeight e |}.
Definition with_attributes (x : gmap string string) (e : HTMLElement) : HTMLElement :=
  {| childNodes := childNodes e; attributes := x; classList := classList e;
     style := style e; listeners := listeners e; offsetHeight := offsetHeight e |}.
Definition with_classList (x : list string) (e : HTMLElement) : HTMLElement :=
  {| childNodes := childNodes e; attributes := attributes e; classList := x;
     style := style e; listeners := listeners e; offsetHeight := offsetHeight e |}.
Definition with_style (x : gmap string string) (e : HTMLElement) : HTMLElement :=
  {| childNodes := childNodes e; attributes := attributes e; classList := classList e;
     style := x; listeners := listeners e; offsetHeight := offsetHeight e |}.
Definition with_listeners (x : list (string * fn)) (e : HTMLElement) : HTMLElement :=
  {| childNodes := childNodes e; attributes := attributes e; classList := classList e;
     style := style e; listeners := x; offsetHeight := offsetHeight e |}.

Definition element (el : nat) : JS HTMLElement :=
  λ w, (Normal (elements w !!! el), w).

Definition update_element (el : nat) (f : HTMLElement → HTMLElement) : JS unit :=
  modify (λ w, set_elements (<[el := f (elements w !!! el)]> (elements w)) w).

(** [el.innerText], read as the character data below [el] in document
    order (the logical text of the specification's data model). *)
Definition innerText (el : nat) : JS string :=
  e ← element el;
  mret (logicalText (createTreeWalker el (childNodes e))).

(** Replacing the children of [el] removes the old ones from the document: a
    boundary point of the selection in [el] or below it is left at
    [(el, 0)], as the DOM does for live ranges. *)
Definition detach_point (el : nat) (n : option NodeRef) (offset : nat)
  : option NodeRef * nat :=
  match n with
  | Some (e, _) => if decide (e = el) then (Some (el, []), 0) else (n, offset)
  | None => (n, offset)
  end.

Definition detach (el : nat) (sel : Selection) : Selection :=
  {| anchorNode := (detach_point el (anchorNode sel) (anchorOffset sel)).1;
     anchorOffset := (detach_point el (anchorNode sel) (anchorOffset sel)).2;
     focusNode := (detach_point el (focusNode sel) (focusOffset sel)).1;
     focusOffset := (detach_point el (focusNode sel) (focusOffset sel)).2 |}.

(** [el.innerHTML = markup] *)
Definition set_innerHTML (h : Host) (el : nat) (markup : string) : JS unit :=
  update_element el (with_childNodes (parseHTML h markup));;
  modify (λ w, set_selection (detach el (selection w)) w).

Definition setAttribute (el : nat) (name v : string) : JS unit :=
  update_element el (λ e, with_attributes (<[name := v]> (attributes e)) e).

Definition removeAttribute (el : nat) (name : string) : JS unit :=
  update_element el (λ e, with_attributes (delete name (attributes e)) e).

(** ASCII white space as the DOM has it: tab, line feed, form feed,
    carriage return and space (the vertical tab is none). *)
Definition ascii_whitespace (c : ascii) : bool :=
  match c with
  | "009" | "010" | "012" | "013" | " " => true
  | _ => false
  end%char.

Fixpoint has_space (s : string) : bool :=
  match s with
  | EmptyString => false
  | String c s' => ascii_whitespace c || has_space s'
  end.

(** A DOMTokenList refuses the empty token and a token with ASCII white
    space. *)
Definition check_token (token : string) : JS unit :=
  if decide (token = "") then throw (DOMException "SyntaxError")
  else if has_space token then throw (DOMException "InvalidCharacterError")
  else mret tt.

Definition classList_add (el : nat) (token : string) : JS unit :=
  check_token token;;
  update_element el (λ e,
    if decide (token ∈ classList e) then e
    else with_classList (classList e ++ [token]) e).

Definition classList_remove (el : nat) (token : string) : JS unit :=
  check_token token;;
  update_element el (λ e,
    with_classList (filter (λ t, t ≠ token) (classList e)) e).

Definition set_style (el : nat) (property v : string) : JS unit :=
  update_element el (λ e, with_style (<[property := v]> (style e)) e).

(** A listener is registered once per (type, function object). *)
Definition addEventListener (el : nat) (type : string) (f : fn) : JS unit :=
  update_element el (λ e,
    if decide ((type, f) ∈ listeners e) then e
    else with_listeners (listeners e ++ [(type, f)]) e).

(** Only the very function object that was registered is removed. *)
Definition removeEventListener (el : nat) (type : string) (f : fn) : JS unit :=
  update_element el (λ e,
    with_listeners (filter (λ l, l ≠ (type, f)) (listeners e)) e).

(** [handler.bind(this)]: a new function object at every call. *)
Definition Function_bind (hd : handler) (this : nat) : JS fn :=
  w ← get;
  put (set_bound (bound w ++ [(hd, this)]) w);;
  mret (BoundFn (length (bound w))).

(** [range.setStart(node, offset); range.collapse(true);
    sel.removeAllRanges(); sel.addRange(range)], for a text node with the
    character data [data]: [setStart] refuses an offset beyond the data. *)
Definition select_collapsed (n : NodeRef) (data : string) (offset : Z) : JS unit :=
  if (offset <? 0)%Z || (Z.of_nat (String.length data) <? offset)%Z
  then throw (DOMException "IndexSizeError")
  else modify (set_selection (collapsedAt n (Z.to_nat offset))).

(** [f.apply(ctx, args)]: a callback of the page is recorded with its
    [this]; it reads and writes nothing of the program's state. *)
Definition Function_apply (callback ctx : value) : JS unit :=
  match callback with
  | VFunction f => modify (λ w, set_calls (calls w ++ [(f, ctx)]) w)
  | _ => throw (TypeError "apply")
  end.

(** ** String operations of the language *)

(** [s.replace(/c/g, by)] for a pattern that is the single character [c] and
    a replacement without [$]: every [c] becomes [by], left to right. *)
Fixpoint replace_char (c : ascii) (by_ : string) (s : string) : string :=
  match s with
  | EmptyString => EmptyString
  | String x s' =>
      if Ascii.eqb x c then by_ +:+ replace_char c by_ s'
      else String x (replace_char c by_ s')
  end.

(** [s.substring(0, n)] and [s.substr(n)] for a non-negative integer [n]. *)
Definition substring0 (n : nat) (s : string) : string := substring 0 n s.
Definition substr (n : nat) (s : string) : string :=
  substring n (String.length s - n) s.

Definition expand (subject : string) (p : piece) : string :=
  match p with
  | Literal s => s
  | Copied from len => substring from len subject
  end.

Definition replacement (subject : string) (ps : list piece) : string :=
  foldr (λ p acc, expand subject p +:+ acc) "" ps.

(** The result of [subject.replace(pattern, template)] from the matches the
    engine found: the text between the matches is kept, each match gives way
    to its replacement.  [position] is where the text not yet copied starts;
    a match that starts before it (no engine reports one) is passed over. *)
Fixpoint splice (subject : string) (position : nat) (ms : list MatchResult)
  : string :=
  match ms with
  | [] => substr position subject
  | m :: ms' =>
      if (m_index m <? position)%nat then splice subject position ms'
      else substring position (m_index m - position) subject
           +:+ replacement subject (m_replacement m)
           +:+ splice subject (m_index m + m_length m) ms'
  end.

Definition String_replace (h : Host) (subject : string) (r : RegExp)
    (tpl : string) : string :=
  splice subject 0 (replace_matches h r tpl subject).

Definition quot : ascii := "034"%char.       (* the double quote *)
Definition CRLF : string := String "013"%char (String "010"%char "").

(** ** [utils] *)

Module utils.

(** [for (key in options) if (hasOwnProperty) defaults[key] = options[key]] *)
Definition extend (defaults options : gmap string value) : gmap string value :=
  map_fold (λ key v defaults, <[key := v]> defaults) defaults options.

Definition getCaretOffsetWithin (el : nat) : JS Pos :=
  e ← element el;
  w ← get;
  let sel := selection w in
  mret (getCaretOffset_loop sel (createTreeWalker el (childNodes e)) 0 0 false).

Definition isUndefined (val : value) : bool :=
  match val with VUndefined => true | _ => false end.

(** [typeof n === 'number' && n % 1 === 0] *)
Definition isNumber (n : value) : bool :=
  typeof_number n &&
  match n with VNumber x => is_zero (rem1 x) | _ => false end.

(** [index >= 0], for an [index] that is a number *)
Definition ge0 (index : value) : bool :=
  match index with VNumber x => ge_zero x | _ => false end.

(** The integer an integral number stands for. *)
Definition to_Z (index : value) : Z :=
  match index with
  | VNumber (Finite num den) => Z.quot num (Z.pos den)
  | _ => 0
  end.

Definition setCaretPositionWithin (el : nat) (index : value) : JS unit :=
  if isNumber index && ge0 index then
    e ← element el;
    match setCaretPosition_loop (createTreeWalker el (childNodes e))
            (to_Z index) 0 with
    | Some (currentNode, data, offset) =>
        select_collapsed currentNode data offset
    | None => mret tt
    end
  else throw (Error_InvalidIndex index).

Definition escapeHTML (unsafeText : string) : string :=
  replace_char "'" "&#039;"
    (replace_char quot "&quot;"
       (replace_char ">" "&gt;"
          (replace_char "<" "&lt;"
             (replace_char "&" "&amp;" unsafeText)))).

(** The markup [utils.highlight] computes from the text of the node with
    the rules [regexs]: the value of [text] after the [forEach]. *)
Definition markup (h : Host) (regexs : list reg) (text : string) : string :=
  fold_left (λ text reg, String_replace h text (pattern reg) (template reg))
    regexs (escapeHTML text).

Definition highlight (h : Host) (el : nat) : JS unit :=
  text ← innerText el;
  w ← get;
  match settings w !! "regexs" with
  | Some (VRegexs regexs) => set_innerHTML h el (markup h regexs text)
  | _ => throw (TypeError "forEach")
  end.

End utils.

(** ** Plugin private methods *)

Definition KEYS_ENTER : Z := 13.

(** The module-level [settings] and [events] as the module is loaded. *)
Definition default_regexs : list reg :=
  [ {| pattern := {| source := "(^|\s)(#[a-z\d-]+)"; flags := "gi" |};
       template := "$1<span class=" +:+ String quot "hashtag"
                   +:+ String quot ">$2</span>" |};
    {| pattern :=
         {| source := "((https?):\/\/[\w-]+(\.[\w-]+)+([\w.,@?^=%&amp;:/~+#-]*[\w@?^=%&amp;/~+#-])?)";
            flags := "gi" |};
       template := "<span class=" +:+ String quot "url"
                   +:+ String quot ">$1</span>" |};
    {| pattern := {| source := "(@([a-z\d_]+))"; flags := "gi" |};
       template := "<span class=" +:+ String quot "mention"
                   +:+ String quot ">$1</span>" |} ].

Definition initial_settings : gmap string value :=
  {[ "className" := VString "cehighlighter";
     "elastic" := VBool true;
     "regexs" := VRegexs default_regexs ]}.

Definition initial_events : gmap string value :=
  {[ "change" := VUndefined; "destroy" := VUndefined ]}.

(** What a handler reads of the event it is given. *)
Record Event := {
  which : Z;                          (* e.which *)
  clipboardData : option string       (* e.clipboardData.getData('text/plain'),
                                         when e.clipboardData has getData *)
}.

Definition preventDefault : JS unit := modify (set_defaultPrevented true).

(** Reading an identifier that neither the function nor the module scope
    around it declares: it is a property of the global object, or the read
    throws. *)
Definition global (h : Host) (identifier : string) : JS value :=
  match window h !! identifier with
  | Some v => mret v
  | None => throw (ReferenceError identifier)
  end.

(** [events[evtName]] *)
Definition events_get (evtName : string) : JS value :=
  w ← get; mret (default VUndefined (events w !! evtName)).

Definition trigger (evtName : string) (ctx : value) : JS unit :=
  callback ← events_get evtName;
  if negb (utils.isUndefined callback) then Function_apply callback ctx
  else mret tt.

(** The value of [paste] after the first [if] of [onPaste]: a string, or
    [None] for [false]. *)
Definition clipboard_payload (h : Host) (e : Event) : option string :=
  match clipboardData e with
  | Some text => Some text
  | None =>
      match window_clipboardData h with
      | Some text => Some text
      | None => None
      end
  end.

(** [if (paste)]: [false] and the empty string are falsy. *)
Definition truthy (paste : option string) : bool :=
  match paste with
  | Some text => negb (String.eqb text "")
  | None => false
  end.

Definition onPaste (h : Host) (this : nat) (e : Event) : JS unit :=
  let paste := clipboard_payload h e in
  (if truthy paste then
     let input_value_ := input_value h (default "" paste) in
     pos ← utils.getCaretOffsetWithin this;
     html ← innerText this;
     let escapedPastedText := utils.escapeHTML input_value_ in
     set_innerHTML h this
       (substring0 (start pos) html +:+ escapedPastedText
        +:+ substr (end_ pos) html);;
     utils.highlight h this;;
     let newCaretPosition := start pos + String.length escapedPastedText in
     utils.setCaretPositionWithin this (of_nat newCaretPosition);;
     (* trigger('change', _this): no [_this] is declared in onPaste or
        around it (the one of onInput is local to onInput) *)
     _this ← global h "_this";
     trigger "change" _this
   else mret tt);;
  preventDefault.

(** The function [onInput] hands to [setTimeout]. *)
Definition onInput_deferred (h : Host) (_this : nat) : JS unit :=
  charPos ← utils.getCaretOffsetWithin _this;
  utils.highlight h _this;;
  utils.setCaretPositionWithin _this (of_nat (start charPos));;
  trigger "change" (VInstance _this).

Definition onInput (this : nat) (e : Event) : JS unit :=
  modify (λ w, set_timers (timers w ++ [this]) w).

Definition onKeyPress (h : Host) (this : nat) (e : Event) : JS unit :=
  if (which e =? KEYS_ENTER)%Z then
    pos ← utils.getCaretOffsetWithin this;
    html ← innerText this;
    set_innerHTML h this
      (substring0 (start pos) html +:+ CRLF +:+ substr (end_ pos) html);;
    utils.highlight h this;;
    utils.setCaretPositionWithin this (of_nat (start pos + 1));;
    trigger "change" (VInstance this);;
    preventDefault
  else mret tt.

Definition attachEvent (evtName : string) (callback : value) : JS unit :=
  w ← get;
  if bool_decide (is_Some (events w !! evtName)) then
    if typeof_function callback then
      put (set_events (<[evtName := callback]> (events w)) w)
    else throw Error_CallbackNotFunction
  else throw (Error_NoSupportForEvent evtName).

Definition detachEvent (evtName : string) : JS unit :=
  w ← get;
  if bool_decide (is_Some (events w !! evtName)) then
    put (set_events (<[evtName := VUndefined]> (events w)) w)
  else throw (Error_NoSupportForEvent evtName).

(** ** Plugin *)

(** A value that is neither [undefined] nor an object. *)
Inductive primitive :=
  | PNull
  | PBoolean (b : bool)
  | PNumber (n : number)
  | PString (s : string)
  | PBigInt (n : Z)
  | PSymbol (description : string).

(** The [options] argument of the constructor.  It is absent
    ([undefined]); or an object that has [Object.prototype] on its prototype
    chain (a plain object, an array, a function), given by its own
    enumerable properties; or an object that has not (one made by
    [Object.create(null)], one of another frame), given likewise; or a
    primitive value. *)
Inductive options_arg :=
  | OptionsUndefined
  | OptionsObject (own : gmap string value)
  | OptionsForeignObject (own : gmap string value)
  | OptionsPrimitive (p : primitive).

(** [utils.isUndefined(options)] *)
Definition options_isUndefined (options : options_arg) : bool :=
  match options with
  | OptionsUndefined => true
  | _ => false
  end.

(** [options instanceof Object] *)
Definition instanceof_Object (options : options_arg) : bool :=
  match options with
  | OptionsObject _ => true
  | _ => false
  end.

(** [!utils.isUndefined(options) && !(options instanceof Object)] *)
Definition options_invalid (options : options_arg) : bool :=
  negb (options_isUndefined options) && negb (instanceof_Object options).

(** The keys [for (key in options)] passes the [hasOwnProperty] test with,
    and their values. *)
Definition own_properties (options : options_arg) : gmap string value :=
  match options with
  | OptionsObject own | OptionsForeignObject own => own
  | _ => ∅
  end.

(** [settings.className] where the DOM takes a string *)
Definition settings_className (h : Host) : JS string :=
  w ← get; mret (ToString h (default VUndefined (settings w !! "className"))).

Definition px (n : nat) : string := pretty n +:+ "px".

(** [new CEHighlighter(el, options)]; the result is the new object, given by
    its [el]. *)
Definition CEHighlighter (h : Host) (el : value) (options : options_arg)
  : JS nat :=
  if negb (supports h) then throw Error_UnsupportedBrowser else
  match el with
  | VElement this_el =>
      if options_invalid options then throw Error_InvalidOptions else
      modify (λ w, set_settings
                     (utils.extend (settings w) (own_properties options)) w);;
      setAttribute this_el "contenteditable" "true";;
      className ← settings_className h;
      classList_add this_el className;;
      set_style this_el "whiteSpace" "pre-wrap";;
      set_style this_el "outline" "none";;
      w ← get;
      e ← element this_el;
      (match settings w !! "elastic" with
       | Some (VBool true) =>
           set_style this_el "display" "inline-block";;
           set_style this_el "minHeight" (px (offsetHeight e));;
           set_style this_el "height" "auto"
       | _ =>
           set_style this_el "height" (px (offsetHeight e));;
           set_style this_el "overflow" "auto"
       end);;
      f ← Function_bind OnPaste this_el; addEventListener this_el "paste" f;;
      f ← Function_bind OnInput this_el; addEventListener this_el "input" f;;
      f ← Function_bind OnKeyPress this_el; addEventListener this_el "keypress" f;;
      mret this_el
  | _ => throw Error_InvalidEl
  end.

Definition getCaretPosition (this : nat) : JS Pos :=
  utils.getCaretOffsetWithin this.

Definition setCaretPosition (this : nat) (index : value) : JS unit :=
  utils.setCaretPositionWithin this index.

Definition getLength (this : nat) : JS nat :=
  text ← innerText this; mret (String.length text).

Definition on (this : nat) (evtName : string) (callback : value) : JS unit :=
  attachEvent evtName callback.

Definition unbind (this : nat) (evtName : string) : JS unit :=
  detachEvent evtName.

Definition destroy (h : Host) (this : nat) : JS unit :=
  removeAttribute this "contenteditable";;
  className ← settings_className h;
  classList_remove this className;;
  f ← Function_bind OnPaste this; removeEventListener this "paste" f;;
  f ← Function_bind OnInput this; removeEventListener this "input" f;;
  trigger "destroy" (VInstance this).

(** ** Where the characters of the markup come from *)

(** [utils.highlight] builds its markup by calls of [replace] alone.  Each
    call keeps the characters it does not match and puts a replacement in
    the place of each match, so every character of the markup has one
    origin: it is a character of the text of the node that no call
    replaced, or it was written by a replacement of [utils.escapeHTML], or
    by the template of a rule.  The functions below are the string
    operations above on characters that carry their origin; [erase] forgets
    it. *)
Inductive origin := FromText | FromEscape | FromTemplate.

Definition tagged : Type := list (origin * ascii).

Definition tag (o : origin) (s : string) : tagged :=
  map (λ c, (o, c)) (list_ascii_of_string s).

Definition erase (t : tagged) : string := string_of_list_ascii (map snd t).

Fixpoint replace_char_t (c : ascii) (by_ : string) (t : tagged) : tagged :=
  match t with
  | [] => []
  | (o, x) :: t' =>
      if Ascii.eqb x c then tag FromEscape by_ ++ replace_char_t c by_ t'
      else (o, x) :: replace_char_t c by_ t'
  end.

Definition escapeHTML_t (unsafeText : tagged) : tagged :=
  replace_char_t "'" "&#039;"
    (replace_char_t quot "&quot;"
       (replace_char_t ">" "&gt;"
          (replace_char_t "<" "&lt;"
             (replace_char_t "&" "&amp;" unsafeText)))).

Definition substring_t (n m : nat) (t : tagged) : tagged := take m (drop n t).

Definition expand_t (subject : tagged) (p : piece) : tagged :=
  match p with
  | Literal s => tag FromTemplate s
  | Copied from len => substring_t from len subject
  end.

Definition replacement_t (subject : tagged) (ps : list piece) : tagged :=
  foldr (λ p acc, expand_t subject p ++ acc) [] ps.

Fixpoint splice_t (subject : tagged) (position : nat) (ms : list MatchResult)
  : tagged :=
  match ms with
  | [] => drop position subject
  | m :: ms' =>
      if (m_index m <? position)%nat then splice_t subject position ms'
      else substring_t position (m_index m - position) subject
           ++ replacement_t subject (m_replacement m)
           ++ splice_t subject (m_index m + m_length m) ms'
  end.

Definition String_replace_t (h : Host) (subject : tagged) (r : RegExp)
    (tpl : string) : tagged :=
  splice_t subject 0 (replace_matches h r tpl (erase subject)).

Definition markup_t (h : Host) (regexs : list reg) (text : string) : tagged :=
  fold_left (λ text reg, String_replace_t h text (pattern reg) (template reg))
    regexs (escapeHTML_t (tag FromText text)).

(** The five markup-significant characters. *)
Definition significant (c : ascii) : bool :=
  Ascii.eqb c "&" || Ascii.eqb c "<" || Ascii.eqb c ">"
  || Ascii.eqb c quot || Ascii.eqb c "'".

(** What a markup parser reads an escaped text as: each of the five
    character references stands for its character. *)
Fixpoint unescapeHTML (s : string) : string :=
  match s with
  | String "&" (String "a" (String "m" (String "p" (String ";" s')))) =>
      String "&" (unescapeHTML s')
  | String "&" (String "l" (String "t" (String ";" s'))) =>
      String "<" (unescapeHTML s')
  | String "&" (String "g" (String "t" (String ";" s'))) =>
      String ">" (unescapeHTML s')
  | String "&" (String "q" (String "u" (String "o" (String "t" (String ";" s'))))) =>
      String quot (unescapeHTML s')
  | String "&" (String "#" (String "0" (String "3" (String "9" (String ";" s'))))) =>
      String "'" (unescapeHTML s')
  | String c s' => String c (unescapeHTML s')
  | EmptyString => EmptyString
  end.

(** What [utils.escapeHTML] makes of one character. *)
Definition escape_one (c : ascii) : string :=
  if Ascii.eqb c "&" then "&amp;"
  else if Ascii.eqb c "<" then "&lt;"
  else if Ascii.eqb c ">" then "&gt;"
  else if Ascii.eqb c quot then "&quot;"
  else if Ascii.eqb c "'" then "&#039;"
  else String c "".

(** A character that is none of [<], [>], the double quote and [']. *)
Definition markup_char (c : ascii) : Prop :=
  c ≠ "<"%char ∧ c ≠ ">"%char ∧ c ≠ quot ∧ c ≠ "'"%char.

(** Every character of [t] that comes from the text satisfies [P]. *)
Definition from_text (P : ascii → Prop) (t : tagged) : Prop :=
  Forall (λ oc, oc.1 = FromText → P oc.2) t.

(** ** Vocabulary of the properties *)

(** [v] is a number whose value is the non-negative integer [n]. *)
Definition is_integer (v : value) (n : Z) : Prop :=
  ∃ den, v = VNumber (Finite (n * Z.pos den) den).

Definition nonneg_integer (v : value) : Prop :=
  ∃ n, (0 ≤ n)%Z ∧ is_integer v n.

(** The logical text below [el] in the world [w]. *)
Definition text_of (w : World) (el : nat) : string :=
  logicalText (createTreeWalker el (childNodes (elements w !!! el))).

(** The callbacks of the table are functions or [undefined], and its keys
    are the two event names: true of the table as the module is loaded, and
    kept by [attachEvent] and [detachEvent]. *)
Definition events_ok (evts : gmap string value) : Prop :=
  dom evts = {[ "change"; "destroy" ]} ∧
  ∀ k v, evts !! k = Some v → v = VUndefined ∨ ∃ f, v = VFunction f.

(** The callbacks [trigger(evtName, ctx)] applies in the world [w]. *)
Definition fired (w : World) (evtName : string) (ctx : value)
  : list (fn * value) :=
  match events w !! evtName with
  | Some (VFunction f) => [(f, ctx)]
  | _ => []
  end.

(** The offsets [getCaretOffsetWithin(el)] returns in the world [w]. *)
Definition caret_of (w : World) (el : nat) : Pos :=
  getCaretOffset_loop (selection w)
    (createTreeWalker el (childNodes (elements w !!! el))) 0 0 false.

(** The world after [el.innerHTML = markup]. *)
Definition after_innerHTML (h : Host) (el : nat) (markup : string) (w : World)
  : World :=
  let w1 :=
    set_elements
      (<[el := with_childNodes (parseHTML h markup) (elements w !!! el)]>
         (elements w)) w in
  set_selection (detach el (selection w1)) w1.

(** The listeners of an element were made by earlier calls of [bind]: the
    function objects registered are among those created so far. *)
Definition listeners_bound (w : World) (el : nat) : Prop :=
  ∀ type i, (type, BoundFn i) ∈ listeners (elements w !!! el) → i < length (bound w).

(** A computation whose exceptions all satisfy [P]. *)
Definition throws_only {A} (P : error → Prop) (m : JS A) : Prop :=
  ∀ w e w', m w = (Throw e, w') → P e.

(** A computation that leaves [settings] as it finds it. *)
Definition keeps_settings {A} (m : JS A) : Prop :=
  ∀ w, settings (m w).2 = settings w.

(** The world after [update_element el f]. *)
Definition updated (el : nat) (f : HTMLElement → HTMLElement) (w : World) : World :=
  set_elements (<[el := f (elements w !!! el)]> (elements w)) w.

(** [settings.elastic === true] *)
Definition elastic_is_true (x : option value) : bool :=
  match x with Some (VBool true) => true | _ => false end.

(** ** A host for the closed examples *)

Definition ToString_basic (v : value) : string :=
  match v with
  | VUndefined => "undefined"
  | VNull => "null"
  | VBool true => "true"
  | VBool false => "false"
  | VString s => s
  | VNumber (Finite num 1) => pretty num
  | VNumber NaN => "NaN"
  | VNumber (Infinity false) => "Infinity"
  | VNumber (Infinity true) => "-Infinity"
  | _ => "[object Object]"
  end.

(** A host that is only asked about plain text: its parser reads markup as
    one text node (right for markup without [<], [&] and carriage return), its
    regular-expression engine finds no match (right for the default rules on
    text without [#], [@] and [http]), and it has neither a global [_this]
    nor a legacy clipboard. *)
Definition plain_host : Host :=
  {| parseHTML := λ s, if decide (s = "") then [] else [TextNode s];
     replace_matches := λ _ _ _, [];
     ToString := ToString_basic;
     input_value := λ s, s;
     supports := true;
     window := ∅;
     window_clipboardData := None |}.

(** What the HTML parser does to the line breaks of its input before it
    reads it: CR LF becomes LF, and a CR alone becomes LF. *)
Fixpoint normalize_newlines (s : string) : string :=
  match s with
  | String "013" (String "010" s') => String "010" (normalize_newlines s')
  | String "013" s' => String "010" (normalize_newlines s')
  | String c s' => String c (normalize_newlines s')
  | EmptyString => EmptyString
  end.

(** The plain host with the line breaks of an HTML parser: markup without
    [<] and [&] is read as one text node, its line breaks normalized. *)
Definition newline_host : Host :=
  {| parseHTML := λ s, if decide (normalize_newlines s = "") then []
                       else [TextNode (normalize_newlines s)];
     replace_matches := λ _ _ _, [];
     ToString := ToString_basic;
     input_value := λ s, s;
     supports := true;
     window := ∅;
     window_clipboardData := None |}.


Definition an_element (text : string) : HTMLElement :=
  {| childNodes := if decide (text = "") then [] else [TextNode text];
     attributes := ∅; classList := []; style := ∅; listeners := [];
     offsetHeight := 20 |}.

(** The page as the module is loaded, with element [0] holding [text] and
    the caret at [offset] in it. *)
Definition page (text : string) (offset : nat) : World :=
  {| settings := initial_settings; events := initial_events;
     elements := {[ 0 := an_element text ]};
     selection := collapsedAt (0, [0]) offset;
     bound := []; timers := []; calls := []; defaultPrevented := false |}.

(** The world a computation leaves, and its completion. *)
Definition exec {A} (m : JS A) (w : World) : World := (m w).2.
Definition outcome {A} (m : JS A) (w : World) : completion A := (m w).1.

(** A highlighted tree for the examples: [check <span>#topic</span> ok]. *)
Definition highlighted_page (sel : Selection) : World :=
  {| settings := initial_settings; events := initial_events;
     elements :=
       {[ 0 := with_childNodes
                 [TextNode "check "; ElementNode [TextNode "#topic"]; TextNode " ok"]
                 (an_element "") ]};
     selection := sel;
     bound := []; timers := []; calls := []; defaultPrevented := false |}.

Definition no_selection : Selection :=
  {| anchorNode := None; anchorOffset := 0; focusNode := None; focusOffset := 0 |}.

(** A page with two elements, and the world after [new CEHighlighter(el0)]
    on it. *)
Definition two_elements : World :=
  {| settings := initial_settings; events := initial_events;
     elements := {[ 0 := an_element "#first"; 1 := an_element "#second" ]};
     selection := collapsedAt (0, [0]) 0;
     bound := []; timers := []; calls := []; defaultPrevented := false |}.

Definition first_instance : World :=
  exec (CEHighlighter plain_host (VElement 0) OptionsUndefined) two_elements.

(** The page after [new CEHighlighter(el0)] and a subscription to
    [destroy]. *)
Definition subscribed_page : World :=
  Eval vm_compute in
    exec (CEHighlighter plain_host (VElement 0) OptionsUndefined;;
          on 0 "destroy" (VFunction (UserFn 1)))
         (page "hello world" 5).



(** That page after a construction that failed on the class [""]: the
    settings keep the empty class. *)
Definition failed_page : World :=
  Eval vm_compute in
    exec (CEHighlighter plain_host (VElement 0)
            (OptionsObject {[ "className" := VString "" ]}))
         subscribed_page.

(** * Properties *)

(** ** Strings *)

Lemma append_cons (c : ascii) (s1 s2 : string) :
  String c s1 +:+ s2 = String c (s1 +:+ s2).
Proof. reflexivity. Qed.


Lemma append_nil_r (s : string) : s +:+ "" = s.
Proof. induction s as [|c s IH]; [done | by rewrite append_cons, IH]. Qed.

Lemma append_assoc (s1 s2 s3 : string) :
  (s1 +:+ s2) +:+ s3 = s1 +:+ (s2 +:+ s3).
Proof. induction s1 as [|c s1 IH]; [done | by rewrite !append_cons, IH]. Qed.

Lemma length_append (s1 s2 : string) :
  String.length (s1 +:+ s2) = String.length s1 + String.length s2.
Proof.
  induction s1 as [|c s1 IH]; [done |].
  rewrite append_cons. simpl. by rewrite IH.
Qed.

Lemma logicalText_cons (n : NodeRef) (data : string) walk :
  logicalText ((n, data) :: walk) = data +:+ logicalText walk.
Proof. reflexivity. Qed.

Lemma logicalText_app walk1 walk2 :
  logicalText (walk1 ++ walk2) = logicalText walk1 +:+ logicalText walk2.
Proof.
  induction walk1 as [|[n data] walk1 IH]; [done |].
  by rewrite <- app_comm_cons, !logicalText_cons, IH, append_assoc.
Qed.

(** ** The tree walker yields every text node once *)

Lemma textNodes_children path l :
  textNodes path (ElementNode l) = childTextNodes path 0 l.
Proof.
  simpl. generalize 0. induction l as [|c l IH]; intros i; simpl; [done |].
  by rewrite IH.
Qed.

Lemma node_induction (P : node → Prop) :
  (∀ data, P (TextNode data)) →
  (∀ l, Forall P l → P (ElementNode l)) →
  ∀ n, P n.
Proof.
  intros P_text P_element. fix IH 1. intros [data | l].
  - apply P_text.
  - apply P_element. induction l as [|c l IHl]; constructor; [apply IH | exact IHl].
Qed.

Lemma textNodes_below n : ∀ path p data,
  (p, data) ∈ textNodes path n → ∃ suffix, p = path ++ suffix.
Proof.
  induction n as [data0 | l IH] using node_induction; intros path p data Hin.
  - apply list_elem_of_singleton in Hin. exists []. rewrite app_nil_r. congruence.
  - rewrite textNodes_children in Hin. revert Hin. generalize 0.
    induction IH as [|c l Hc _ IHl]; intros i Hin; simpl in Hin.
    + by apply not_elem_of_nil in Hin.
    + apply elem_of_app in Hin as [Hin | Hin]; [| by eapply IHl].
      apply Hc in Hin as [suffix ->]. exists (i :: suffix).
      by rewrite <- app_assoc.
Qed.

Lemma childTextNodes_below l : ∀ path i p data,
  (p, data) ∈ childTextNodes path i l →
  ∃ k suffix, i ≤ k ∧ p = path ++ k :: suffix.
Proof.
  induction l as [|c l IH]; intros path i p data Hin; simpl in Hin.
  - by apply not_elem_of_nil in Hin.
  - apply elem_of_app in Hin as [Hin | Hin].
    + apply textNodes_below in Hin as [suffix ->].
      exists i, suffix. split; [lia | by rewrite <- app_assoc].
    + apply IH in Hin as (k & suffix & Hk & ->). exists k, suffix. split; [lia | done].
Qed.

Lemma NoDup_childTextNodes l : ∀ path i,
  (∀ c, c ∈ l → ∀ path, NoDup (textNodes path c).*1) →
  NoDup (childTextNodes path i l).*1.
Proof.
  induction l as [|c l IH]; intros path i Hl; simpl; [constructor |].
  rewrite fmap_app. apply NoDup_app. split_and!.
  - apply Hl. by left.
  - intros p Hp1 Hp2.
    apply list_elem_of_fmap in Hp1 as [[p1 d1] [-> Hp1]].
    apply list_elem_of_fmap in Hp2 as [[p2 d2] [Heq Hp2]]. simpl in Heq. subst p2.
    apply textNodes_below in Hp1 as [s1 Hs1].
    apply childTextNodes_below in Hp2 as (k & s2 & Hk & Hs2).
    rewrite Hs1, <- app_assoc in Hs2. apply app_inv_head in Hs2.
    simpl in Hs2. injection Hs2 as -> _. lia.
  - apply IH. intros c' Hc'. apply Hl. by right.
Qed.

Lemma NoDup_textNodes n : ∀ path, NoDup (textNodes path n).*1.
Proof.
  induction n as [data | l IH] using node_induction; intros path.
  - simpl. apply NoDup_singleton.
  - rewrite textNodes_children. apply NoDup_childTextNodes.
    intros c Hc. by eapply Forall_forall in IH.
Qed.

Lemma createTreeWalker_refs el l :
  (createTreeWalker el l).*1 = pair el <$> (childTextNodes [] 0 l).*1.
Proof.
  unfold createTreeWalker. generalize (childTextNodes [] 0 l). intros walk.
  induction walk as [|[p d] walk IH]; [done |].
  simpl. f_equal. exact IH.
Qed.

Lemma NoDup_createTreeWalker el l : NoDup (createTreeWalker el l).*1.
Proof.
  rewrite createTreeWalker_refs. apply NoDup_fmap_2.
  - intros p1 p2 Heq. by injection Heq.
  - apply NoDup_childTextNodes. intros c _ path. apply NoDup_textNodes.
Qed.

(** ** The offset mapper *)

Arguments logicalText : simpl never.

Lemma isCollapsed_collapsedAt n offset : isCollapsed (collapsedAt n offset) = true.
Proof. by apply bool_decide_eq_true_2. Qed.

(** Where the loop of [setCaretPositionWithin] stops: at the first text node
    whose end is at or after [index], with the offset that is left. *)
Lemma setCaretPosition_loop_Some walk : ∀ index currentPos n data offset,
  (currentPos ≤ index)%Z →
  setCaretPosition_loop walk index currentPos = Some (n, data, offset) →
  ∃ before after,
    walk = before ++ (n, data) :: after ∧
    (offset = index - (currentPos + Z.of_nat (String.length (logicalText before))))%Z ∧
    (0 ≤ offset ≤ Z.of_nat (String.length data))%Z.
Proof.
  induction walk as [|[n0 data0] walk IH]; intros index cp n data offset Hcp Hloop;
    simpl in Hloop; [done |].
  destruct (Z.geb_spec (cp + Z.of_nat (String.length data0)) index) as [Hge | Hlt].
  - injection Hloop as <- <- <-. exists [], walk. simpl. split_and!; [done | lia | lia | lia].
  - apply IH in Hloop as (before & after & -> & -> & Hoff); [| lia].
    exists ((n0, data0) :: before), after.
    rewrite logicalText_cons, length_append. split_and!; [done | lia | lia | lia].
Qed.

Lemma setCaretPosition_loop_None walk : ∀ index currentPos,
  (currentPos + Z.of_nat (String.length (logicalText walk)) < index)%Z →
  setCaretPosition_loop walk index currentPos = None.
Proof.
  induction walk as [|[n0 data0] walk IH]; intros index cp Hlt; simpl; [done |].
  rewrite logicalText_cons, length_append in Hlt.
  destruct (Z.geb_spec (cp + Z.of_nat (String.length data0)) index) as [Hge | _];
    [lia |].
  apply IH. lia.
Qed.

Lemma setCaretPosition_loop_is_Some walk : ∀ index currentPos,
  walk ≠ [] →
  (index ≤ currentPos + Z.of_nat (String.length (logicalText walk)))%Z →
  is_Some (setCaretPosition_loop walk index currentPos).
Proof.
  induction walk as [|[n0 data0] walk IH]; intros index cp Hne Hle; [done |].
  simpl. rewrite logicalText_cons, length_append in Hle.
  destruct (Z.geb_spec (cp + Z.of_nat (String.length data0)) index) as [Hge | Hlt];
    [done |].
  destruct walk as [|x walk']; [simpl in Hle; lia |].
  apply IH; [done | lia].
Qed.

(** The loop of [getCaretOffsetWithin] on a collapsed selection: the lengths
    of the text nodes before the anchor, and the anchor's offset. *)
Lemma getCaretOffset_loop_collapsed n offset data before after :
  ∀ pos_start pos_end,
  n ∉ before.*1 →
  getCaretOffset_loop (collapsedAt n offset) (before ++ (n, data) :: after)
    pos_start pos_end false
  = {| start := pos_start + String.length (logicalText before) + offset;
       end_ := pos_start + String.length (logicalText before) + offset |}.
Proof.
  induction before as [|[n0 data0] before IH]; intros s e Hnotin.
  - simpl. rewrite isCollapsed_collapsedAt.
    rewrite bool_decide_eq_true_2 by done. simpl. f_equal; lia.
  - rewrite <- app_comm_cons. simpl.
    rewrite isCollapsed_collapsedAt. simpl.
    rewrite bool_decide_eq_false_2.
    2:{ intros [= ->]. apply Hnotin. simpl. by left. }
    simpl. rewrite IH.
    2:{ intros Hin. apply Hnotin. simpl. by right. }
    rewrite logicalText_cons, length_append. f_equal; lia.
Qed.

Lemma NoDup_app_notin {A} (l1 l2 : list A) (x : A) :
  NoDup (l1 ++ x :: l2) → x ∉ l1.
Proof.
  intros Hnd Hin. apply NoDup_app in Hnd as (_ & Hdisj & _).
  apply (Hdisj x Hin). by left.
Qed.

Lemma isNumber_ge0_of_nat (o : nat) :
  utils.isNumber (of_nat o) && utils.ge0 (of_nat o) = true.
Proof.
  unfold utils.isNumber, utils.ge0, of_nat, of_Z. simpl.
  rewrite Z.rem_1_r. simpl. apply Z.leb_le. lia.
Qed.

Lemma to_Z_of_nat (o : nat) : utils.to_Z (of_nat o) = Z.of_nat o.
Proof. unfold utils.to_Z, of_nat, of_Z. apply Z.quot_1_r. Qed.

(** The code's test [utils.isNumber(index) && index >= 0] holds exactly of
    the numbers that are non-negative integers. *)
Lemma valid_index_iff (v : value) :
  utils.isNumber v && utils.ge0 v = true ↔ nonneg_integer v.
Proof.
  split.
  - destruct v as [| | |[num den| |]| | | | | |]; try done.
    unfold utils.isNumber, utils.ge0.
    cbn [typeof_number rem1 is_zero ge_zero andb].
    intros [Hrem Hge]%andb_prop.
    apply Z.eqb_eq in Hrem. apply Z.leb_le in Hge.
    apply Z.rem_divide in Hrem as [k Hk]; [| done].
    exists k. split; [nia |]. exists den. by rewrite Hk.
  - intros (n & Hn & den & ->).
    unfold utils.isNumber, utils.ge0.
    cbn [typeof_number rem1 is_zero ge_zero andb].
    rewrite Z.rem_mul by done. apply Z.leb_le. nia.
Qed.

Lemma to_Z_integer (v : value) (n : Z) : is_integer v n → utils.to_Z v = n.
Proof. intros [den ->]. unfold utils.to_Z. by apply Z.quot_mul. Qed.

(** [setCaretPositionWithin] on a valid index never throws, and writes
    nothing but the selection. *)
Lemma setCaretPositionWithin_valid el index w :
  nonneg_integer index →
  ∃ sel, utils.setCaretPositionWithin el index w = (Normal tt, set_selection sel w).
Proof.
  intros Hvalid. pose proof Hvalid as (n & Hn & Hint).
  unfold utils.setCaretPositionWithin.
  rewrite (proj2 (valid_index_iff index) Hvalid), (to_Z_integer _ _ Hint).
  unfold mbind, JS_bind, element. simpl.
  destruct (setCaretPosition_loop _ n 0) as [[[node data] offset]|] eqn:Hloop.
  - apply setCaretPosition_loop_Some in Hloop as (_ & _ & _ & _ & Hoff); [| done].
    unfold select_collapsed.
    destruct (Z.ltb_spec offset 0) as [|_]; [lia |].
    destruct (Z.ltb_spec (Z.of_nat (String.length data)) offset) as [|_]; [lia |].
    simpl. by eexists.
  - exists (selection w). unfold mret, JS_ret. by destruct w.
Qed.

(** ** Running the pieces of the coordinator *)

Lemma bind_Normal {A B} (m : JS A) (k : A → JS B) w a w' :
  m w = (Normal a, w') → (m ≫= k) w = k a w'.
Proof. intros Hm. unfold mbind, JS_bind. by rewrite Hm. Qed.

Lemma bind_Throw {A B} (m : JS A) (k : A → JS B) w e w' :
  m w = (Throw e, w') → (m ≫= k) w = (Throw e, w').
Proof. intros Hm. unfold mbind, JS_bind. by rewrite Hm. Qed.

Lemma set_selection_same w : set_selection (selection w) w = w.
Proof. by destruct w. Qed.

Lemma set_calls_nil w : set_calls (calls w ++ []) w = w.
Proof. rewrite app_nil_r. by destruct w. Qed.

Lemma getCaretOffsetWithin_run el w :
  utils.getCaretOffsetWithin el w = (Normal (caret_of w el), w).
Proof. reflexivity. Qed.

Lemma innerText_run el w : innerText el w = (Normal (text_of w el), w).
Proof. reflexivity. Qed.

Lemma set_innerHTML_run h el markup w :
  set_innerHTML h el markup w = (Normal tt, after_innerHTML h el markup w).
Proof. reflexivity. Qed.

Lemma childNodes_after_innerHTML h el markup w :
  childNodes (elements (after_innerHTML h el markup w) !!! el) = parseHTML h markup.
Proof.
  unfold after_innerHTML. cbn [elements set_selection set_elements].
  by rewrite lookup_total_insert_eq.
Qed.

Lemma text_of_after_innerHTML h el markup w :
  text_of (after_innerHTML h el markup w) el
  = logicalText (createTreeWalker el (parseHTML h markup)).
Proof. unfold text_of. by rewrite childNodes_after_innerHTML. Qed.

Lemma highlight_run h el w regexs :
  settings w !! "regexs" = Some (VRegexs regexs) →
  utils.highlight h el w
  = (Normal tt, after_innerHTML h el (utils.markup h regexs (text_of w el)) w).
Proof.
  intros Hregexs. unfold utils.highlight.
  rewrite (bind_Normal _ _ _ _ _ (innerText_run el w)).
  unfold mbind, JS_bind, get. cbn beta iota. by rewrite Hregexs.
Qed.

Lemma trigger_run evtName ctx w :
  events_ok (events w) →
  trigger evtName ctx w = (Normal tt, set_calls (calls w ++ fired w evtName ctx) w).
Proof.
  intros [_ Hvalues]. unfold trigger, events_get, fired.
  unfold mbind, JS_bind, get, mret, JS_ret. cbn beta iota.
  destruct (events w !! evtName) as [v|] eqn:Hv; cbn [default].
  - destruct (Hvalues _ _ Hv) as [-> | [f ->]]; cbn.
    + by rewrite set_calls_nil.
    + reflexivity.
  - cbn. by rewrite set_calls_nil.
Qed.

(** Restoring a caret at [o <= length T] and capturing it again. *)
Lemma restore_then_capture (w : World) (el o : nat) :
  o ≤ String.length (text_of w el) →
  ∃ sel, utils.setCaretPositionWithin el (of_nat o) w
         = (Normal tt, set_selection sel w)
         ∧ caret_of (set_selection sel w) el = {| start := o; end_ := o |}.
Proof.
  intros Ho. unfold text_of in Ho.
  unfold utils.setCaretPositionWithin, caret_of.
  rewrite isNumber_ge0_of_nat, to_Z_of_nat.
  unfold mbind, JS_bind, element, mret, JS_ret. cbn beta iota.
  cbn [elements set_selection selection].
  pose proof (NoDup_createTreeWalker el (childNodes (elements w !!! el))) as Hnd.
  destruct (createTreeWalker el (childNodes (elements w !!! el)))
    as [|first walk] eqn:Hwalk.
  - (* no text node: nothing is selected, and the walk counts nothing *)
    exists (selection w). change (String.length (logicalText [])) with 0 in Ho.
    assert (o = 0) as -> by lia. by rewrite set_selection_same.
  - rewrite <- Hwalk in *.
    destruct (setCaretPosition_loop_is_Some
                (createTreeWalker el (childNodes (elements w !!! el)))
                (Z.of_nat o) 0) as [[[n data] offset] Hloop].
    { by rewrite Hwalk. }
    { lia. }
    rewrite Hloop.
    apply setCaretPosition_loop_Some in Hloop
      as (before & after & Heq & Hoffset & Hrange); [| lia].
    unfold select_collapsed.
    destruct (Z.ltb_spec offset 0) as [|_]; [lia |].
    destruct (Z.ltb_spec (Z.of_nat (String.length data)) offset) as [|_]; [lia |].
    cbn [orb modify].
    eexists. split; [reflexivity |].
    rewrite Heq in Hnd |- *. rewrite fmap_app in Hnd.
    rewrite getCaretOffset_loop_collapsed.
    2:{ eapply NoDup_app_notin. exact Hnd. }
    f_equal; lia.
Qed.

(** C1. Round-trip offset mapping: for every tree below an element, with
    logical text [T], and every offset [o] with [0 <= o <= length T],
    [setCaretPositionWithin(el, o)] returns normally and changes no element,
    and [getCaretOffsetWithin(el)] on the selection it leaves yields
    [{start: o, end: o}]. *)
Theorem caret_round_trip (w : World) (el o : nat) :
  o ≤ String.length (text_of w el) →
  ∃ w', utils.setCaretPositionWithin el (of_nat o) w = (Normal tt, w')
        ∧ elements w' = elements w
        ∧ utils.getCaretOffsetWithin el w'
          = (Normal {| start := o; end_ := o |}, w').
Proof.
  intros Ho. destruct (restore_then_capture w el o Ho) as (sel & Hset & Hget).
  exists (set_selection sel w). split; [exact Hset |]. split; [reflexivity |].
  by rewrite getCaretOffsetWithin_run, Hget.
Qed.

Lemma caret_round_trip_witness :
  ∃ w', utils.setCaretPositionWithin 0 (of_nat 9) (highlighted_page no_selection)
        = (Normal tt, w')
        ∧ elements w' = elements (highlighted_page no_selection)
        ∧ utils.getCaretOffsetWithin 0 w'
          = (Normal {| start := 9; end_ := 9 |}, w').
Proof.
  apply (caret_round_trip (highlighted_page no_selection) 0 9).
  vm_compute. lia.
Defined.

(** C6. Caret restore throws exactly when the offset is not a non-negative
    integer (not a number, not an integer, or negative); the error is the
    one for an invalid index, and the world it leaves is the world it was
    called in. *)
Theorem setCaretPosition_throws_iff (w : World) (this : nat) (index : value) :
  ((∃ e, outcome (setCaretPosition this index) w = Throw e)
   ↔ ¬ nonneg_integer index)
  ∧ (¬ nonneg_integer index →
     setCaretPosition this index w = (Throw (Error_InvalidIndex index), w)).
Proof.
  assert (Hinvalid : ¬ nonneg_integer index →
    setCaretPosition this index w = (Throw (Error_InvalidIndex index), w)).
  { intros Hnot. unfold setCaretPosition, utils.setCaretPositionWithin.
    destruct (utils.isNumber index && utils.ge0 index) eqn:Htest; [| done].
    destruct Hnot. by apply valid_index_iff. }
  split; [| exact Hinvalid]. split.
  - intros [e He] Hvalid.
    destruct (setCaretPositionWithin_valid this index w Hvalid) as [sel Hrun].
    unfold outcome, setCaretPosition in He. by rewrite Hrun in He.
  - intros Hnot. exists (Error_InvalidIndex index).
    unfold outcome. by rewrite Hinvalid.
Qed.

(** C10. Caret restore with a valid offset beyond the end of the logical
    text: the walk ends without placing the caret, the call returns
    normally, and the world (the selection with it) is as it was: no error,
    no clamping to the end of the content. *)
Theorem setCaretPosition_beyond_end (w : World) (el : nat) (index : value) (n : Z) :
  is_integer index n →
  (Z.of_nat (String.length (text_of w el)) < n)%Z →
  utils.setCaretPositionWithin el index w = (Normal tt, w).
Proof.
  intros Hint Hbeyond.
  assert (Hvalid : nonneg_integer index) by (exists n; split; [lia | done]).
  unfold utils.setCaretPositionWithin.
  rewrite (proj2 (valid_index_iff index) Hvalid), (to_Z_integer _ _ Hint).
  unfold mbind, JS_bind, element. cbn beta iota.
  rewrite setCaretPosition_loop_None; [done |].
  unfold text_of in Hbeyond. lia.
Qed.

Lemma setCaretPosition_beyond_end_witness :
  utils.setCaretPositionWithin 0 (of_Z 16)
    (highlighted_page (collapsedAt (0, [0]) 2))
  = (Normal tt, highlighted_page (collapsedAt (0, [0]) 2)).
Proof.
  apply (setCaretPosition_beyond_end _ 0 (of_Z 16) 16).
  - exists 1%positive. reflexivity.
  - vm_compute. reflexivity.
Defined.

(** ** The highlight renderer *)

Lemma replace_char_app c by_ s1 s2 :
  replace_char c by_ (s1 +:+ s2) = replace_char c by_ s1 +:+ replace_char c by_ s2.
Proof.
  induction s1 as [|x s1 IH]; [done |].
  rewrite append_cons. simpl. rewrite IH.
  destruct (Ascii.eqb x c); [by rewrite append_assoc | done].
Qed.

Lemma escapeHTML_app s1 s2 :
  utils.escapeHTML (s1 +:+ s2) = utils.escapeHTML s1 +:+ utils.escapeHTML s2.
Proof. unfold utils.escapeHTML. by rewrite !replace_char_app. Qed.

Lemma escapeHTML_one c : utils.escapeHTML (String c "") = escape_one c.
Proof. by destruct c as [[] [] [] [] [] [] [] []]. Qed.

(** The five replacements, one after the other, escape each character of the
    text on its own: no replacement touches what an earlier one wrote. *)
Lemma escapeHTML_cons c s :
  utils.escapeHTML (String c s) = escape_one c +:+ utils.escapeHTML s.
Proof.
  change (String c s) with (String c "" +:+ s).
  by rewrite escapeHTML_app, escapeHTML_one.
Qed.

Lemma list_ascii_of_string_app s1 s2 :
  list_ascii_of_string (s1 +:+ s2)
  = list_ascii_of_string s1 ++ list_ascii_of_string s2.
Proof.
  induction s1 as [|c s1 IH]; [done |].
  rewrite append_cons. simpl. by rewrite IH.
Qed.

Lemma escape_one_markup_free c :
  Forall markup_char (list_ascii_of_string (escape_one c)).
Proof.
  destruct c as [[] [] [] [] [] [] [] []];
    vm_compute; repeat constructor; discriminate.
Qed.

Lemma escapeHTML_markup_free s :
  Forall markup_char (list_ascii_of_string (utils.escapeHTML s)).
Proof.
  induction s as [|c s IH]; [constructor |].
  rewrite escapeHTML_cons, list_ascii_of_string_app.
  apply Forall_app. split; [apply escape_one_markup_free | exact IH].
Qed.

Lemma unescapeHTML_escape_one c s :
  unescapeHTML (escape_one c +:+ s) = String c (unescapeHTML s).
Proof. by destruct c as [[] [] [] [] [] [] [] []]. Qed.

Lemma unescapeHTML_escapeHTML s : unescapeHTML (utils.escapeHTML s) = s.
Proof.
  induction s as [|c s IH]; [done |].
  by rewrite escapeHTML_cons, unescapeHTML_escape_one, IH.
Qed.

(** *** Origins: forgetting them gives back the strings of the program *)

Lemma string_of_list_ascii_app l1 l2 :
  string_of_list_ascii (l1 ++ l2)
  = string_of_list_ascii l1 +:+ string_of_list_ascii l2.
Proof. induction l1 as [|c l1 IH]; [done |]. simpl. by rewrite IH. Qed.

Lemma erase_app t1 t2 : erase (t1 ++ t2) = erase t1 +:+ erase t2.
Proof. unfold erase. by rewrite List.map_app, string_of_list_ascii_app. Qed.

Lemma erase_cons o c t : erase ((o, c) :: t) = String c (erase t).
Proof. reflexivity. Qed.

Lemma erase_tag o s : erase (tag o s) = s.
Proof.
  unfold erase, tag. rewrite List.map_map. simpl.
  induction s as [|c s IH]; [done |]. simpl. by rewrite IH.
Qed.

Lemma erase_replace_char_t c by_ t :
  erase (replace_char_t c by_ t) = replace_char c by_ (erase t).
Proof.
  induction t as [|[o x] t IH]; [done |].
  rewrite erase_cons. simpl. destruct (Ascii.eqb x c).
  - by rewrite erase_app, erase_tag, IH.
  - by rewrite erase_cons, IH.
Qed.

Lemma erase_escapeHTML_t t : erase (escapeHTML_t t) = utils.escapeHTML (erase t).
Proof. unfold escapeHTML_t, utils.escapeHTML. by rewrite !erase_replace_char_t. Qed.

Lemma erase_substring_t t : ∀ n m,
  erase (substring_t n m t) = substring n m (erase t).
Proof.
  unfold substring_t.
  induction t as [|[o x] t IH]; intros n m.
  - rewrite drop_nil, take_nil. by destruct n, m.
  - destruct n as [|n].
    + rewrite drop_0. destruct m as [|m]; [done |].
      rewrite !erase_cons. simpl. rewrite erase_cons. f_equal.
      specialize (IH 0 m). by rewrite drop_0 in IH.
    + rewrite erase_cons. simpl. apply IH.
Qed.

Lemma length_erase t : String.length (erase t) = length t.
Proof. induction t as [|[o x] t IH]; [done |]. rewrite erase_cons. simpl. by rewrite IH. Qed.

Lemma erase_drop t n : erase (drop n t) = substr n (erase t).
Proof.
  unfold substr. rewrite <- erase_substring_t. unfold substring_t.
  rewrite length_erase, <- length_drop. by rewrite firstn_all.
Qed.

Lemma erase_replacement_t subject ps :
  erase (replacement_t subject ps) = replacement (erase subject) ps.
Proof.
  induction ps as [|p ps IH]; [done |].
  simpl. rewrite erase_app, IH. f_equal.
  destruct p as [s | from len]; simpl; [apply erase_tag | apply erase_substring_t].
Qed.

Lemma erase_splice_t subject ms : ∀ position,
  erase (splice_t subject position ms) = splice (erase subject) position ms.
Proof.
  induction ms as [|m ms IH]; intros position; simpl.
  - apply erase_drop.
  - destruct (m_index m <? position); [apply IH |].
    by rewrite !erase_app, erase_substring_t, erase_replacement_t, IH.
Qed.

Lemma erase_String_replace_t h subject r tpl :
  erase (String_replace_t h subject r tpl) = String_replace h (erase subject) r tpl.
Proof. apply erase_splice_t. Qed.

Lemma erase_markup_t h regexs text :
  erase (markup_t h regexs text) = utils.markup h regexs text.
Proof.
  unfold markup_t, utils.markup.
  rewrite <- (erase_tag FromText text) at 2. rewrite <- erase_escapeHTML_t.
  generalize (escapeHTML_t (tag FromText text)). intros t. revert t.
  induction regexs as [|reg regexs IH]; intros t; [done |].
  simpl. rewrite IH. by rewrite erase_String_replace_t.
Qed.

(** *** No character of the text survives unescaped *)

Lemma from_text_tag P o s : o ≠ FromText → from_text P (tag o s).
Proof.
  intros Ho. unfold from_text, tag. apply List.Forall_map, Forall_true. by intros c.
Qed.

Lemma replace_char_t_removes c by_ t :
  from_text (λ x, x ≠ c) (replace_char_t c by_ t).
Proof.
  induction t as [|[o x] t IH]; [constructor |].
  simpl. destruct (Ascii.eqb_spec x c) as [-> | Hne].
  - apply Forall_app. split; [by apply (from_text_tag (λ x, x ≠ c)) | exact IH].
  - constructor; [done | exact IH].
Qed.

Lemma replace_char_t_keeps P c by_ t :
  from_text P t → from_text P (replace_char_t c by_ t).
Proof.
  induction 1 as [|[o x] t Hx _ IH]; [constructor |].
  simpl. destruct (Ascii.eqb x c).
  - apply Forall_app. split; [by apply (from_text_tag P) | exact IH].
  - by constructor.
Qed.

Lemma from_text_and P Q t :
  from_text P t → from_text Q t → from_text (λ c, P c ∧ Q c) t.
Proof.
  unfold from_text. rewrite !Forall_forall. intros HP HQ oc Hin Ho.
  split; [by apply HP | by apply HQ].
Qed.

Lemma significant_false c :
  c ≠ "&"%char → c ≠ "<"%char → c ≠ ">"%char → c ≠ quot → c ≠ "'"%char →
  significant c = false.
Proof.
  intros H1 H2 H3 H4 H5. unfold significant.
  by rewrite !(proj2 (Ascii.eqb_neq _ _)).
Qed.

Lemma escapeHTML_t_clean t :
  from_text (λ c, significant c = false) (escapeHTML_t t).
Proof.
  unfold escapeHTML_t.
  set (t1 := replace_char_t "&" "&amp;" t).
  set (t2 := replace_char_t "<" "&lt;" t1).
  set (t3 := replace_char_t ">" "&gt;" t2).
  set (t4 := replace_char_t quot "&quot;" t3).
  set (t5 := replace_char_t "'" "&#039;" t4).
  assert (H1 : from_text (λ x, x ≠ "&"%char) t5)
    by (do 4 apply replace_char_t_keeps; apply replace_char_t_removes).
  assert (H2 : from_text (λ x, x ≠ "<"%char) t5)
    by (do 3 apply replace_char_t_keeps; apply replace_char_t_removes).
  assert (H3 : from_text (λ x, x ≠ ">"%char) t5)
    by (do 2 apply replace_char_t_keeps; apply replace_char_t_removes).
  assert (H4 : from_text (λ x, x ≠ quot) t5)
    by (apply replace_char_t_keeps; apply replace_char_t_removes).
  assert (H5 : from_text (λ x, x ≠ "'"%char) t5)
    by apply replace_char_t_removes.
  unfold from_text in *. rewrite Forall_forall in *.
  intros oc Hin Ho. apply significant_false; eauto.
Qed.

Lemma from_text_substring_t P t n m :
  from_text P t → from_text P (substring_t n m t).
Proof. intros Ht. by apply Forall_take, Forall_drop. Qed.

Lemma from_text_replacement_t P subject ps :
  from_text P subject → from_text P (replacement_t subject ps).
Proof.
  intros Hs. induction ps as [|p ps IH]; [constructor |].
  simpl. apply Forall_app. split; [| exact IH].
  destruct p as [s | from len]; simpl;
    [by apply (from_text_tag P) | by apply from_text_substring_t].
Qed.

Lemma from_text_splice_t P subject ms : ∀ position,
  from_text P subject → from_text P (splice_t subject position ms).
Proof.
  induction ms as [|m ms IH]; intros position Hs; simpl.
  - by apply Forall_drop.
  - destruct (m_index m <? position); [by apply IH |].
    repeat (apply Forall_app; split);
      [by apply from_text_substring_t | by apply from_text_replacement_t
      | by apply IH].
Qed.

Lemma markup_t_clean h regexs text :
  from_text (λ c, significant c = false) (markup_t h regexs text).
Proof.
  unfold markup_t.
  generalize (escapeHTML_t_clean (tag FromText text)).
  generalize (escapeHTML_t (tag FromText text)). intros t. revert t.
  induction regexs as [|reg regexs IH]; intros t Ht; [done |].
  simpl. apply IH. by apply from_text_splice_t.
Qed.

(** C4. For every text of the node and every rule set, [utils.highlight]
    computes its markup by applying the rules, in order, to the escaped
    text, so no rule sees the text before it is escaped; the escaped text
    has none of [<], [>], the double quote and ['], and each of its [&]
    starts the character reference of one character of the text (read as
    markup it is the text again); and in the final markup no character that
    comes from the text, rather than from a replacement of the escaping or
    the template of a rule, is one of the five markup-significant
    characters. *)
Theorem highlight_escapes_first (h : Host) (regexs : list reg) (text : string) :
  utils.markup h regexs text
  = fold_left (λ text reg, String_replace h text (pattern reg) (template reg))
      regexs (utils.escapeHTML text)
  ∧ Forall markup_char (list_ascii_of_string (utils.escapeHTML text))
  ∧ unescapeHTML (utils.escapeHTML text) = text
  ∧ erase (markup_t h regexs text) = utils.markup h regexs text
  ∧ from_text (λ c, significant c = false) (markup_t h regexs text).
Proof.
  split_and!.
  - reflexivity.
  - apply escapeHTML_markup_free.
  - apply unescapeHTML_escapeHTML.
  - apply erase_markup_t.
  - apply markup_t_clean.
Qed.

(** ** The input coordinator *)

Lemma length_substring0 (n : nat) (s : string) :
  n ≤ String.length s → String.length (substring0 n s) = n.
Proof.
  unfold substring0. revert n. induction s as [|c s IH]; intros [|n] Hn; simpl in *;
    try done; try lia.
  rewrite IH; [done | lia].
Qed.

Lemma events_ok_initial : events_ok initial_events.
Proof.
  split.
  - unfold initial_events. by rewrite dom_insert_L, dom_singleton_L.
  - intros k v Hk. unfold initial_events in Hk.
    apply lookup_insert_Some in Hk as [[_ <-] | [_ Hk]]; [by left |].
    apply lookup_singleton_Some in Hk as [_ <-]. by left.
Qed.

Lemma events_ok_insert evts evtName f :
  events_ok evts → is_Some (evts !! evtName) →
  events_ok (<[evtName := VFunction f]> evts).
Proof.
  intros [Hdom Hvalues] Hsome. split.
  - rewrite dom_insert_L, Hdom.
    apply subseteq_union_1_L, singleton_subseteq_l.
    apply elem_of_dom in Hsome. by rewrite <- Hdom.
  - intros k v Hk. apply lookup_insert_Some in Hk as [[_ <-] | [_ Hk]]; eauto.
Qed.







(** Any other key is left to the host. *)
Lemma onKeyPress_other_key h w this e :
  which e ≠ KEYS_ENTER → onKeyPress h this e w = (Normal tt, w).
Proof.
  intros Hkey. unfold onKeyPress.
  by rewrite (proj2 (Z.eqb_neq _ _) Hkey).
Qed.

(** The paste handler, up to the statement that throws. *)
Lemma onPaste_run h w this e payload regexs :
  clipboard_payload h e = Some payload →
  payload ≠ "" →
  settings w !! "regexs" = Some (VRegexs regexs) →
  window h !! "_this" = None →
  let pos := caret_of w this in
  let html := text_of w this in
  let escapedPastedText := utils.escapeHTML (input_value h payload) in
  let spliced :=
    substring0 (start pos) html +:+ escapedPastedText +:+ substr (end_ pos) html in
  let w1 := after_innerHTML h this spliced w in
  let w2 := after_innerHTML h this (utils.markup h regexs (text_of w1 this)) w1 in
  ∃ sel, onPaste h this e w
         = (Throw (ReferenceError "_this"), set_selection sel w2)
         ∧ utils.setCaretPositionWithin this
             (of_nat (start pos + String.length escapedPastedText)) w2
           = (Normal tt, set_selection sel w2).
Proof.
  intros Hpayload Hne Hregexs Hglobal pos html escaped spliced w1 w2.
  unfold onPaste. rewrite Hpayload. cbn [truthy default].
  rewrite (proj2 (String.eqb_neq payload "") Hne). cbn [negb].
  destruct (setCaretPositionWithin_valid this
              (of_nat (start pos + String.length escaped)) w2) as [sel Hset].
  { exists (Z.of_nat (start pos + String.length escaped)). split; [lia |].
    exists 1%positive. unfold of_nat, of_Z. do 2 f_equal. lia. }
  exists sel. split; [| exact Hset].
  apply bind_Throw.
  rewrite (bind_Normal _ _ _ _ _ (getCaretOffsetWithin_run this w)).
  rewrite (bind_Normal _ _ _ _ _ (innerText_run this w)).
  fold pos html escaped spliced.
  rewrite (bind_Normal _ _ _ _ _ (set_innerHTML_run h this spliced w)).
  fold w1.
  rewrite (bind_Normal _ _ _ _ _ (highlight_run h this w1 regexs Hregexs)).
  fold w2.
  rewrite (bind_Normal _ _ _ _ _ Hset).
  apply bind_Throw. unfold global. by rewrite Hglobal.
Qed.

(** C2, as the code has it.  On a paste event with a non-empty payload the
    handler splices the escaped payload into the logical text, highlights
    and restores the caret, and then throws a ReferenceError at
    [trigger('change', _this)], for no [_this] is declared in its scope:
    no callback is applied and the default paste is not prevented. *)
Theorem onPaste_throws_before_change h w this e payload regexs :
  clipboard_payload h e = Some payload →
  payload ≠ "" →
  settings w !! "regexs" = Some (VRegexs regexs) →
  window h !! "_this" = None →
  ∃ w', onPaste h this e w = (Throw (ReferenceError "_this"), w')
        ∧ calls w' = calls w
        ∧ defaultPrevented w' = defaultPrevented w
        ∧ childNodes (elements w' !!! this)
          = parseHTML h
              (utils.markup h regexs
                 (logicalText
                    (createTreeWalker this
                       (parseHTML h
                          (substring0 (start (caret_of w this)) (text_of w this)
                           +:+ utils.escapeHTML (input_value h payload)
                           +:+ substr (end_ (caret_of w this)) (text_of w this)))))).
Proof.
  intros Hpayload Hne Hregexs Hglobal.
  destruct (onPaste_run h w this e payload regexs Hpayload Hne Hregexs Hglobal)
    as (sel & Hrun & _).
  eexists. split; [exact Hrun |]. split_and!; try reflexivity.
  cbn [elements set_selection].
  by rewrite childNodes_after_innerHTML, text_of_after_innerHTML.
Qed.

Lemma onPaste_throws_before_change_witness :
  ∃ w', onPaste plain_host 0 {| which := 0; clipboardData := Some "!" |}
          (exec (on 0 "change" (VFunction (UserFn 1))) (page "hello world" 5))
        = (Throw (ReferenceError "_this"), w')
        ∧ calls w' = []
        ∧ defaultPrevented w' = false
        ∧ childNodes (elements w' !!! 0) = [TextNode "hello! world"].
Proof.
  apply (onPaste_throws_before_change plain_host
           (exec (on 0 "change" (VFunction (UserFn 1))) (page "hello world" 5)) 0
           {| which := 0; clipboardData := Some "!" |} "!" default_regexs);
    done.
Defined.

(** The page the paste of ["!"] at offset 5 of ["hello world"] leaves: the
    text and the caret are those of a finished paste, and neither the
    callback nor [preventDefault] has been reached. *)
Example onPaste_hello_world :
  let w := exec (on 0 "change" (VFunction (UserFn 1))) (page "hello world" 5) in
  let e := {| which := 0; clipboardData := Some "!" |} in
  outcome (onPaste plain_host 0 e) w = Throw (ReferenceError "_this")
  ∧ text_of (exec (onPaste plain_host 0 e) w) 0 = "hello! world"
  ∧ caret_of (exec (onPaste plain_host 0 e) w) 0 = {| start := 6; end_ := 6 |}
  ∧ calls (exec (onPaste plain_host 0 e) w) = []
  ∧ defaultPrevented (exec (onPaste plain_host 0 e) w) = false.
Proof. vm_compute. split_and!; reflexivity. Qed.

(** C8. A paste event with no retrievable payload (no clipboard interface,
    or an empty string from it): the handler returns normally and the world
    is as it was, but for the default action of the event, which is
    prevented; no text is written, nothing is rendered, no callback is
    applied. *)
Theorem onPaste_no_payload h w this e :
  truthy (clipboard_payload h e) = false →
  onPaste h this e w = (Normal tt, set_defaultPrevented true w).
Proof. intros Hfalsy. unfold onPaste. by rewrite Hfalsy. Qed.

Lemma onPaste_no_payload_witness :
  onPaste plain_host 0 {| which := 0; clipboardData := Some "" |}
    (exec (on 0 "change" (VFunction (UserFn 1))) (page "hello world" 5))
  = (Normal tt,
     set_defaultPrevented true
       (exec (on 0 "change" (VFunction (UserFn 1))) (page "hello world" 5))).
Proof.
  apply (onPaste_no_payload plain_host _ 0 {| which := 0; clipboardData := Some "" |}).
  reflexivity.
Defined.

(** ** Subscriptions *)

Lemma events_ok_names evts evtName :
  events_ok evts →
  is_Some (evts !! evtName) ↔ evtName = "change" ∨ evtName = "destroy".
Proof.
  intros [Hdom _]. rewrite <- elem_of_dom, Hdom.
  rewrite elem_of_union, !elem_of_singleton. done.
Qed.

Lemma attachEvent_unsupported w evtName callback :
  events w !! evtName = None →
  attachEvent evtName callback w = (Throw (Error_NoSupportForEvent evtName), w).
Proof.
  intros Hnone. unfold attachEvent, mbind, JS_bind, get. cbn beta iota.
  rewrite bool_decide_eq_false_2; [done |]. rewrite Hnone. by intros [? ?].
Qed.

Lemma attachEvent_not_callable w evtName callback :
  is_Some (events w !! evtName) → typeof_function callback = false →
  attachEvent evtName callback w = (Throw Error_CallbackNotFunction, w).
Proof.
  intros Hsome Hnot. unfold attachEvent, mbind, JS_bind, get. cbn beta iota.
  rewrite bool_decide_eq_true_2 by done. by rewrite Hnot.
Qed.

Lemma attachEvent_stores w evtName f :
  is_Some (events w !! evtName) →
  attachEvent evtName (VFunction f) w
  = (Normal tt, set_events (<[evtName := VFunction f]> (events w)) w).
Proof.
  intros Hsome. unfold attachEvent, mbind, JS_bind, get. cbn beta iota.
  by rewrite bool_decide_eq_true_2 by done.
Qed.

(** The table keeps its two names and its kind of values under
    subscription and unsubscription. *)
Lemma attachEvent_events_ok w evtName callback :
  events_ok (events w) → events_ok (events (exec (attachEvent evtName callback) w)).
Proof.
  intros Hok. unfold exec, attachEvent, mbind, JS_bind, get. cbn beta iota.
  destruct (bool_decide (is_Some (events w !! evtName))) eqn:Hname; [| done].
  apply bool_decide_eq_true_1 in Hname.
  destruct callback; try done. by apply events_ok_insert.
Qed.

Lemma detachEvent_events_ok w evtName :
  events_ok (events w) → events_ok (events (exec (detachEvent evtName) w)).
Proof.
  intros Hok. unfold exec, detachEvent, mbind, JS_bind, get. cbn beta iota.
  destruct (bool_decide (is_Some (events w !! evtName))) eqn:Hname; [| done].
  apply bool_decide_eq_true_1 in Hname. destruct Hok as [Hdom Hvalues]. split.
  - cbn [snd events set_events put]. rewrite dom_insert_L, Hdom.
    apply subseteq_union_1_L, singleton_subseteq_l.
    apply elem_of_dom in Hname. by rewrite <- Hdom.
  - cbn [snd events set_events put]. intros k v Hk.
    apply lookup_insert_Some in Hk as [[_ <-] | [_ Hk]]; eauto.
Qed.

(** C7. [on(evtName, callback)]: for a name other than ["change"] and
    ["destroy"] it throws the error of an unsupported event; for one of the
    two names and a callback that is not a function it throws the error of
    an invalid callback; in both cases nothing is written.  For one of the
    two names and a function it stores the function under the name, and a
    second subscription under the same name takes the place of the first:
    [trigger] then applies the second function alone. *)
Theorem on_subscribes (w : World) (this : nat) (evtName : string)
    (callback : value) :
  events_ok (events w) →
  (evtName ≠ "change" → evtName ≠ "destroy" →
   on this evtName callback w = (Throw (Error_NoSupportForEvent evtName), w))
  ∧ (evtName = "change" ∨ evtName = "destroy" →
     typeof_function callback = false →
     on this evtName callback w = (Throw Error_CallbackNotFunction, w))
  ∧ (evtName = "change" ∨ evtName = "destroy" →
     ∀ f, callback = VFunction f →
     on this evtName callback w
     = (Normal tt, set_events (<[evtName := callback]> (events w)) w)
     ∧ events (exec (on this evtName callback) w) !! evtName = Some callback
     ∧ ∀ g ctx,
         let w2 := exec (on this evtName callback;; on this evtName (VFunction g)) w in
         events w2 !! evtName = Some (VFunction g)
         ∧ trigger evtName ctx w2 = (Normal tt, set_calls (calls w ++ [(g, ctx)]) w2)).
Proof.
  intros Hok. unfold on. split_and!.
  - intros Hc Hd. apply attachEvent_unsupported.
    apply eq_None_not_Some. rewrite (events_ok_names _ _ Hok). by intros [? | ?].
  - intros Hname Hnot. apply attachEvent_not_callable; [| done].
    by apply (events_ok_names _ _ Hok).
  - intros Hname f ->.
    assert (Hsome : is_Some (events w !! evtName))
      by by apply (events_ok_names _ _ Hok).
    rewrite attachEvent_stores by done. split_and!; [done | |].
    + unfold exec. rewrite attachEvent_stores by done.
      cbn [snd events set_events]. apply lookup_insert_eq.
    + intros g ctx. unfold exec.
      rewrite (bind_Normal _ _ _ _ _ (attachEvent_stores w evtName f Hsome)).
      rewrite attachEvent_stores.
      2:{ cbn [events set_events]. rewrite lookup_insert_eq. by eexists. }
      cbn [snd events set_events]. rewrite insert_insert_eq.
      split; [apply lookup_insert_eq |].
      unfold trigger, events_get, mbind, JS_bind, get, mret, JS_ret.
      cbn beta iota. cbn [events set_events]. rewrite lookup_insert_eq.
      reflexivity.
Qed.

Lemma on_subscribes_witness :
  let w := page "hello world" 5 in
  on 0 "foo" (VFunction (UserFn 1)) w = (Throw (Error_NoSupportForEvent "foo"), w)
  ∧ on 0 "change" (VString "callback") w = (Throw Error_CallbackNotFunction, w)
  ∧ events (exec (on 0 "change" (VFunction (UserFn 1))) w) !! "change"
    = Some (VFunction (UserFn 1))
  ∧ let w2 := exec (on 0 "change" (VFunction (UserFn 1));;
                    on 0 "change" (VFunction (UserFn 2))) w in
    trigger "change" (VInstance 0) w2
    = (Normal tt, set_calls [(UserFn 2, VInstance 0)] w2).
Proof.
  intros w.
  pose proof (on_subscribes w 0 "foo" (VFunction (UserFn 1)) events_ok_initial)
    as (Hfoo & _ & _).
  pose proof (on_subscribes w 0 "change" (VString "callback") events_ok_initial)
    as (_ & Hstring & _).
  pose proof (on_subscribes w 0 "change" (VFunction (UserFn 1)) events_ok_initial)
    as (_ & _ & Hfunction).
  destruct (Hfunction (or_introl eq_refl) (UserFn 1) eq_refl)
    as (_ & Hstored & Hsecond).
  split_and!.
  - by apply Hfoo.
  - apply Hstring; [by left | done].
  - exact Hstored.
  - apply (Hsecond (UserFn 2) (VInstance 0)).
Defined.

(** ** Teardown *)

Lemma filter_ne_all {A} `{EqDecision A} (x : A) (l : list A) :
  x ∉ l → filter (λ y, y ≠ x) l = l.
Proof.
  induction l as [|y l IH]; intros Hnotin; [done |].
  rewrite filter_cons. apply not_elem_of_cons in Hnotin as [Hne Hnotin].
  rewrite decide_True by done. by rewrite IH.
Qed.

Lemma not_elem_of_filter_ne {A} `{EqDecision A} (x : A) (l : list A) :
  x ∉ (filter (λ y, y ≠ x) l).
Proof. intros Hin. apply list_elem_of_filter in Hin as [Hne _]. by apply Hne. Qed.

(** One call of [destroy], when [settings.className] is a class token. *)
Lemma destroy_run h w this className :
  events_ok (events w) →
  ToString h (default VUndefined (settings w !! "className")) = className →
  className ≠ "" → has_space className = false →
  ∃ w', destroy h this w = (Normal tt, w')
        ∧ attributes (elements w' !!! this) !! "contenteditable" = None
        ∧ (className ∉ classList (elements w' !!! this))
        ∧ calls w' = calls w ++ fired w "destroy" (VInstance this)
        ∧ events w' = events w
        ∧ settings w' = settings w
        ∧ (listeners_bound w this →
           listeners (elements w' !!! this) = listeners (elements w !!! this)).
Proof.
  intros Hevents HclassName Hne Hspace.
  unfold destroy, removeAttribute, settings_className, classList_remove,
    check_token, removeEventListener, Function_bind, update_element.
  unfold mbind, JS_bind, modify, get, put, mret, JS_ret. cbn beta iota.
  cbn [settings set_elements]. rewrite HclassName.
  rewrite decide_False by done. rewrite Hspace. cbn beta iota.
  cbn [elements set_elements set_bound bound].
  rewrite !lookup_total_insert_eq.
  match goal with |- context [trigger _ _ ?w0] => set (w4 := w0) end.
  rewrite (trigger_run "destroy" (VInstance this) w4 Hevents).
  eexists. split; [reflexivity |].
  cbn [elements set_calls]. unfold w4. cbn [elements set_elements].
  rewrite lookup_total_insert_eq.
  split_and!; try reflexivity.
  - cbn [attributes with_listeners with_classList with_attributes].
    apply lookup_delete_eq.
  - cbn [classList with_listeners with_classList with_attributes].
    apply not_elem_of_filter_ne.
  - intros Hbound.
    cbn [listeners with_listeners with_classList with_attributes].
    rewrite length_app. cbn [length].
    rewrite (filter_ne_all ("paste", BoundFn (length (bound w)))).
    2:{ intros Hin. apply Hbound in Hin. lia. }
    rewrite filter_ne_all; [done |].
    intros Hin. apply Hbound in Hin. lia.
Qed.

(** [destroy] removes no listener of the constructor: the function objects
    it hands to [removeEventListener] are new ones, and it names the
    [keypress] listener nowhere. *)
Lemma destroy_keeps_listeners h w this className :
  events_ok (events w) →
  ToString h (default VUndefined (settings w !! "className")) = className →
  className ≠ "" → has_space className = false →
  listeners_bound w this →
  listeners (elements (exec (destroy h this) w) !!! this)
  = listeners (elements w !!! this).
Proof.
  intros Hevents HclassName Hne Hspace Hbound.
  destruct (destroy_run h w this className Hevents HclassName Hne Hspace)
    as (w' & Hrun & _ & _ & _ & _ & _ & Hlisteners).
  unfold exec. rewrite Hrun. by apply Hlisteners.
Qed.

Lemma fired_events w w' evtName ctx :
  events w' = events w → fired w' evtName ctx = fired w evtName ctx.
Proof. intros Heq. unfold fired. by rewrite Heq. Qed.

(** [destroy] when [settings.className] is no class token: the exception
    of [classList.remove] ends the call after the attribute is removed. *)
Lemma destroy_bad_token h w this className :
  ToString h (default VUndefined (settings w !! "className")) = className →
  className = "" ∨ has_space className = true →
  ∃ name w', destroy h this w = (Throw (DOMException name), w')
             ∧ attributes (elements w' !!! this) !! "contenteditable" = None
             ∧ classList (elements w' !!! this) = classList (elements w !!! this)
             ∧ listeners (elements w' !!! this) = listeners (elements w !!! this)
             ∧ calls w' = calls w.
Proof.
  intros HclassName Hbad.
  unfold destroy, removeAttribute, settings_className, classList_remove,
    check_token, update_element.
  unfold mbind, JS_bind, modify, get, mret, JS_ret, throw. cbn beta iota.
  cbn [settings set_elements]. rewrite HclassName.
  destruct (decide (className = "")) as [Hempty | Hne].
  - do 2 eexists. split; [reflexivity |].
    cbn [elements set_elements calls]. rewrite lookup_total_insert_eq.
    split_and!; try reflexivity. apply lookup_delete_eq.
  - destruct Hbad as [? | ->]; [done |].
    do 2 eexists. split; [reflexivity |].
    cbn [elements set_elements calls]. rewrite lookup_total_insert_eq.
    split_and!; try reflexivity. apply lookup_delete_eq.
Qed.

(** C3, as the code has it.  [destroy()] removes the [contenteditable]
    attribute.  When [settings.className] is a class token, it returns
    normally, removes the class from the element and applies the [destroy]
    callback once in the call; a second [destroy()] does the same and
    applies it once more.  When [settings.className] is no class token (it
    is empty or has white space), [destroy()] throws from
    [classList.remove]: the class list is as it was and no callback is
    applied.  (What becomes of the listeners is left out here.) *)
Theorem destroy_fires_once_per_call h w this className :
  events_ok (events w) →
  ToString h (default VUndefined (settings w !! "className")) = className →
  (className ≠ "" → has_space className = false →
   ∃ w1 w2,
     destroy h this w = (Normal tt, w1)
     ∧ attributes (elements w1 !!! this) !! "contenteditable" = None
     ∧ (className ∉ classList (elements w1 !!! this))
     ∧ calls w1 = calls w ++ fired w "destroy" (VInstance this)
     ∧ destroy h this w1 = (Normal tt, w2)
     ∧ calls w2 = calls w1 ++ fired w "destroy" (VInstance this))
  ∧ (className = "" ∨ has_space className = true →
     ∃ name w',
       destroy h this w = (Throw (DOMException name), w')
       ∧ attributes (elements w' !!! this) !! "contenteditable" = None
       ∧ classList (elements w' !!! this) = classList (elements w !!! this)
       ∧ calls w' = calls w).
Proof.
  intros Hevents HclassName. split.
  - intros Hne Hspace.
    destruct (destroy_run h w this className Hevents HclassName Hne Hspace)
      as (w1 & Hrun1 & Hattr & Hclass & Hcalls1 & Hevents1 & Hsettings1 & _).
    destruct (destroy_run h w1 this className)
      as (w2 & Hrun2 & _ & _ & Hcalls2 & _);
      [by rewrite Hevents1 | by rewrite Hsettings1 | done | done |].
    exists w1, w2. split_and!; try done.
    by rewrite Hcalls2, (fired_events w w1).
  - intros Hbad.
    destruct (destroy_bad_token h w this className HclassName Hbad)
      as (name & w' & Hrun & Hattr & Hclass & _ & Hcalls).
    by exists name, w'.
Qed.

Lemma destroy_fires_once_per_call_witness :
  (∃ w1 w2,
     destroy plain_host 0 subscribed_page = (Normal tt, w1)
     ∧ attributes (elements w1 !!! 0) !! "contenteditable" = None
     ∧ ("cehighlighter" ∉ classList (elements w1 !!! 0))
     ∧ calls w1 = [(UserFn 1, VInstance 0)]
     ∧ destroy plain_host 0 w1 = (Normal tt, w2)
     ∧ calls w2 = calls w1 ++ [(UserFn 1, VInstance 0)])
  ∧ (∃ name w',
       destroy plain_host 0 failed_page = (Throw (DOMException name), w')
       ∧ attributes (elements w' !!! 0) !! "contenteditable" = None
       ∧ classList (elements w' !!! 0) = classList (elements failed_page !!! 0)
       ∧ calls w' = calls failed_page).
Proof.
  assert (Hok : events_ok (<["destroy" := VFunction (UserFn 1)]> initial_events))
    by (apply events_ok_insert; [apply events_ok_initial | by eexists]).
  split.
  - apply (destroy_fires_once_per_call plain_host subscribed_page 0 "cehighlighter").
    + assert (events subscribed_page
              = <["destroy" := VFunction (UserFn 1)]> initial_events) as ->
        by (vm_compute; reflexivity).
      exact Hok.
    + reflexivity.
    + discriminate.
    + reflexivity.
  - apply (destroy_fires_once_per_call plain_host failed_page 0 "").
    + assert (events failed_page
              = <["destroy" := VFunction (UserFn 1)]> initial_events) as ->
        by (vm_compute; reflexivity).
      exact Hok.
    + reflexivity.
    + by left.
Defined.

(** C3, as the claim has it, fails: after two calls of [destroy()] the
    [destroy] callback has been applied twice, and the three listeners of
    the constructor are still registered on the element. *)
Lemma destroy_twice_fires_twice :
  let w := exec (destroy plain_host 0;; destroy plain_host 0) subscribed_page in
  calls w = [(UserFn 1, VInstance 0); (UserFn 1, VInstance 0)]
  ∧ listeners (elements subscribed_page !!! 0)
    = [("paste", BoundFn 0); ("input", BoundFn 1); ("keypress", BoundFn 2)]
  ∧ listeners (elements w !!! 0)
    = [("paste", BoundFn 0); ("input", BoundFn 1); ("keypress", BoundFn 2)].
Proof. vm_compute. split_and!; reflexivity. Qed.

(** ** The shared settings *)

Lemma extend_lookup (defaults options : gmap string value) (key : string) :
  utils.extend defaults options !! key
  = match options !! key with
    | Some v => Some v
    | None => defaults !! key
    end.
Proof.
  unfold utils.extend. revert key.
  apply (map_fold_weak_ind
           (λ r (m : gmap string value), ∀ key,
              r !! key = match m !! key with
                         | Some v => Some v
                         | None => defaults !! key
                         end)).
  - intros key. by rewrite lookup_empty.
  - intros i x m r Hnone IH key.
    destruct (decide (i = key)) as [-> | Hne].
    + by rewrite !lookup_insert_eq.
    + rewrite !lookup_insert_ne by done. apply IH.
Qed.

Lemma keeps_settings_ret {A} (a : A) : keeps_settings (mret a).
Proof. by intros w. Qed.

Lemma keeps_settings_throw {A} e : keeps_settings (@throw A e).
Proof. by intros w. Qed.

Lemma keeps_settings_bind {A B} (m : JS A) (k : A → JS B) :
  keeps_settings m → (∀ a, keeps_settings (k a)) → keeps_settings (m ≫= k).
Proof.
  intros Hm Hk w. unfold mbind, JS_bind. specialize (Hm w).
  destruct (m w) as [[a | e] w']; simpl in *; [| done].
  by rewrite Hk.
Qed.

Lemma keeps_settings_update_element el f : keeps_settings (update_element el f).
Proof. by intros w. Qed.

Lemma keeps_settings_get : keeps_settings get.
Proof. by intros w. Qed.

Lemma keeps_settings_element el : keeps_settings (element el).
Proof. by intros w. Qed.

Lemma keeps_settings_bind_handler hd this : keeps_settings (Function_bind hd this).
Proof. by intros w. Qed.

Lemma keeps_settings_check_token token : keeps_settings (check_token token).
Proof.
  intros w. unfold check_token.
  destruct (decide (token = "")); [done |]. by destruct (has_space token).
Qed.

Ltac keeps_settings :=
  repeat first
    [ apply keeps_settings_bind_handler
    | apply keeps_settings_check_token
    | apply keeps_settings_update_element
    | apply keeps_settings_element
    | apply keeps_settings_get
    | apply keeps_settings_ret
    | apply keeps_settings_throw
    | apply keeps_settings_bind; [| intros ?] ].

(** The constructor writes the options into the one [settings] object. *)
Lemma CEHighlighter_settings h w el options :
  supports h = true → options_invalid options = false →
  settings (exec (CEHighlighter h (VElement el) options) w)
  = utils.extend (settings w) (own_properties options).
Proof.
  intros Hsupports Hvalid. unfold exec, CEHighlighter.
  rewrite Hsupports, Hvalid. cbn [negb].
  match goal with
  | |- settings ((modify ?f ≫= ?k) w).2 = _ =>
      change ((modify f ≫= k) w) with (k tt (f w));
      assert (Hkeeps : keeps_settings (k tt))
  end.
  { unfold setAttribute, settings_className, classList_add, set_style,
      addEventListener.
    keeps_settings.
    all: repeat match goal with
         | |- keeps_settings (match ?x with _ => _ end) => destruct x
         end; keeps_settings. }
  by rewrite Hkeeps.
Qed.

(** C9. [settings] is one object of the module, not of an instance: the
    constructor writes the own properties of its [options] into it, so after
    [new CEHighlighter(b, options)] with a [regexs] property, the
    highlighting of every element, those of the instances constructed
    before included, runs the rules of these options. *)
Theorem settings_shared h w (b : nat) own regexs :
  supports h = true →
  own !! "regexs" = Some (VRegexs regexs) →
  let w' := exec (CEHighlighter h (VElement b) (OptionsObject own)) w in
  settings w' = utils.extend (settings w) own
  ∧ (∀ key v, own !! key = Some v → settings w' !! key = Some v)
  ∧ ∀ a, utils.highlight h a w'
         = (Normal tt,
            after_innerHTML h a (utils.markup h regexs (text_of w' a)) w').
Proof.
  intros Hsupports Hregexs w'.
  assert (Hsettings : settings w' = utils.extend (settings w) own)
    by by apply CEHighlighter_settings.
  assert (Hown : ∀ key v, own !! key = Some v → settings w' !! key = Some v).
  { intros key v Hkey. by rewrite Hsettings, extend_lookup, Hkey. }
  split_and!; [done | done |].
  intros a. apply highlight_run. by apply Hown.
Qed.

Lemma settings_shared_witness :
  let w := first_instance in
  let w' := exec (CEHighlighter plain_host (VElement 1)
                    (OptionsObject {[ "regexs" := VRegexs [] ]})) w in
  settings w' = utils.extend (settings w) {[ "regexs" := VRegexs [] ]}
  ∧ (∀ key v, ({[ "regexs" := VRegexs [] ]} : gmap string value) !! key = Some v →
              settings w' !! key = Some v)
  ∧ ∀ a, utils.highlight plain_host a w'
         = (Normal tt,
            after_innerHTML plain_host a
              (utils.markup plain_host [] (text_of w' a)) w').
Proof.
  exact (settings_shared plain_host first_instance 1
           {[ "regexs" := VRegexs [] ]} [] eq_refl eq_refl).
Defined.

(** * More of the code *)

(** ** Capturing a caret or a range ([utils.getCaretOffsetWithin]) *)

(** While neither the anchor nor the focus has been met, the loop adds the
    length of each text node to both counters. *)
Lemma getCaretOffset_loop_before sel before rest : ∀ pos_start pos_end,
  isCollapsed sel = false →
  (∀ n, n ∈ before.*1 → Some n ≠ anchorNode sel ∧ Some n ≠ focusNode sel) →
  getCaretOffset_loop sel (before ++ rest) pos_start pos_end false
  = getCaretOffset_loop sel rest
      (pos_start + String.length (logicalText before))
      (pos_end + String.length (logicalText before)) false.
Proof.
  induction before as [|[n0 data0] before IH]; intros s e Hrange Hnot.
  - simpl. change (String.length (logicalText [])) with 0. by rewrite !Nat.add_0_r.
  - rewrite <- app_comm_cons. simpl. rewrite Hrange. simpl.
    destruct (Hnot n0) as [Ha Hf]; [simpl; by left |].
    rewrite !bool_decide_eq_false_2 by done. simpl.
    rewrite IH; [| done | intros n Hn; apply Hnot; simpl; by right].
    rewrite logicalText_cons, length_append. f_equal; lia.
Qed.

(** Past the anchor, only [pos.end] grows. *)
Lemma getCaretOffset_loop_between sel mid rest : ∀ pos_start pos_end,
  isCollapsed sel = false →
  (∀ n, n ∈ mid.*1 → Some n ≠ focusNode sel) →
  getCaretOffset_loop sel (mid ++ rest) pos_start pos_end true
  = getCaretOffset_loop sel rest pos_start
      (pos_end + String.length (logicalText mid)) true.
Proof.
  induction mid as [|[n0 data0] mid IH]; intros s e Hrange Hnot.
  - simpl. change (String.length (logicalText [])) with 0. by rewrite Nat.add_0_r.
  - rewrite <- app_comm_cons. simpl. rewrite Hrange. simpl.
    rewrite bool_decide_eq_false_2 by (apply Hnot; simpl; by left).
    rewrite IH; [| done | intros n Hn; apply Hnot; simpl; by right].
    rewrite logicalText_cons, length_append. f_equal; lia.
Qed.

Lemma app_cons_split {A} (l1 : list A) : ∀ l2 x y r1 r2,
  l1 ++ x :: r1 = l2 ++ y :: r2 → length l1 < length l2 →
  ∃ mid, l2 = l1 ++ x :: mid ∧ r1 = mid ++ y :: r2.
Proof.
  induction l1 as [|a l1 IH]; intros [|b l2] x y r1 r2 Heq Hlen; simpl in *;
    try lia.
  - injection Heq as <- ->. by exists l2.
  - injection Heq as <- Heq. apply IH in Heq as (mid & -> & ->); [| lia].
    by exists mid.
Qed.

Lemma app_cons_same {A} (l1 : list A) : ∀ l2 x y r1 r2,
  l1 ++ x :: r1 = l2 ++ y :: r2 → length l1 = length l2 →
  l1 = l2 ∧ x = y ∧ r1 = r2.
Proof.
  intros l2 x y r1 r2 Heq Hlen.
  apply app_inj_1 in Heq as [-> Heq]; [| done]. by injection Heq as -> ->.
Qed.

Lemma NoDup_walk_notin_before (before : list (NodeRef * string)) n data rest :
  NoDup (before ++ (n, data) :: rest).*1 → n ∉ before.*1.
Proof. rewrite fmap_app. apply NoDup_app_notin. Qed.

Lemma NoDup_walk_notin_after (before : list (NodeRef * string)) n data rest :
  NoDup (before ++ (n, data) :: rest).*1 → n ∉ rest.*1.
Proof.
  rewrite fmap_app. intros Hnd. apply NoDup_app in Hnd as (_ & _ & Hnd).
  simpl in Hnd. by apply NoDup_cons in Hnd as [Hnotin _].
Qed.

Lemma NoDup_walk_drop (before : list (NodeRef * string)) rest :
  NoDup (before ++ rest).*1 → NoDup rest.*1.
Proof. rewrite fmap_app. intros Hnd. by apply NoDup_app in Hnd as (_ & _ & Hnd). Qed.

Lemma NoDup_walk_disjoint (l1 l2 : list (NodeRef * string)) n :
  NoDup (l1 ++ l2).*1 → n ∈ l1.*1 → n ∈ l2.*1 → False.
Proof.
  rewrite fmap_app. intros Hnd H1 H2.
  apply NoDup_app in Hnd as (_ & Hdisj & _). by apply (Hdisj n).
Qed.

Lemma elem_of_walk_middle (l1 l2 : list (NodeRef * string)) n data :
  n ∈ (l1 ++ (n, data) :: l2).*1.
Proof. rewrite fmap_app. apply elem_of_app. right. simpl. by left. Qed.

(** X1. A caret (collapsed selection) in a text node of the tree is
    captured as the length of the text nodes before that node plus the
    offset in the node, for [start] and [end] alike. *)
Theorem getCaretOffsetWithin_caret w el before n data after offset :
  createTreeWalker el (childNodes (elements w !!! el))
  = before ++ (n, data) :: after →
  selection w = collapsedAt n offset →
  utils.getCaretOffsetWithin el w
  = (Normal {| start := String.length (logicalText before) + offset;
               end_ := String.length (logicalText before) + offset |}, w).
Proof.
  intros Hwalk Hsel. rewrite getCaretOffsetWithin_run. f_equal.
  unfold caret_of. rewrite Hsel, Hwalk.
  rewrite getCaretOffset_loop_collapsed; [done |].
  eapply NoDup_walk_notin_before. rewrite <- Hwalk.
  apply NoDup_createTreeWalker.
Qed.

Lemma getCaretOffsetWithin_caret_witness :
  utils.getCaretOffsetWithin 0 (highlighted_page (collapsedAt (0, [1; 0]) 3))
  = (Normal {| start := 9; end_ := 9 |},
     highlighted_page (collapsedAt (0, [1; 0]) 3)).
Proof.
  apply (getCaretOffsetWithin_caret
           (highlighted_page (collapsedAt (0, [1; 0]) 3)) 0
           [((0, [0]), "check ")] (0, [1; 0]) "#topic" [((0, [2]), " ok")] 3);
    reflexivity.
Defined.

(** X2. A range whose anchor is in a text node at or before the text node
    of its focus is captured as the two offsets in the logical text:
    [start] is the length before the anchor's node plus the anchor offset,
    [end] the length before the focus's node plus the focus offset. *)
Theorem getCaretOffsetWithin_forward_range w el
    before_a na data_a after_a before_f nf data_f after_f :
  createTreeWalker el (childNodes (elements w !!! el))
  = before_a ++ (na, data_a) :: after_a →
  createTreeWalker el (childNodes (elements w !!! el))
  = before_f ++ (nf, data_f) :: after_f →
  anchorNode (selection w) = Some na →
  focusNode (selection w) = Some nf →
  isCollapsed (selection w) = false →
  length before_a ≤ length before_f →
  utils.getCaretOffsetWithin el w
  = (Normal {| start := String.length (logicalText before_a)
                        + anchorOffset (selection w);
               end_ := String.length (logicalText before_f)
                       + focusOffset (selection w) |}, w).
Proof.
  intros Hwa Hwf Hanchor Hfocus Hrange Hle.
  rewrite getCaretOffsetWithin_run. f_equal. unfold caret_of.
  pose proof (NoDup_createTreeWalker el (childNodes (elements w !!! el))) as Hnd.
  set (sel := selection w) in *.
  destruct (decide (length before_a = length before_f)) as [Hsame | Hdiff].
  - (* anchor and focus in the same text node *)
    rewrite Hwa in Hwf.
    apply app_cons_same in Hwf as (<- & Heq & <-); [| done].
    injection Heq as <- <-.
    rewrite Hwa in Hnd |- *.
    rewrite getCaretOffset_loop_before; [| done |].
    2:{ intros n Hn. rewrite Hanchor, Hfocus.
        assert (n ≠ na); [| split; congruence].
        intros ->. by eapply NoDup_walk_notin_before. }
    simpl. rewrite Hrange, Hanchor, Hfocus. simpl.
    by rewrite !bool_decide_eq_true_2.
  - (* the focus in a later text node *)
    pose proof Hwf as Hwf'. rewrite Hwa in Hwf'.
    apply app_cons_split in Hwf' as (mid & -> & ->); [| lia].
    rewrite Hwa in Hnd |- *.
    assert (Hna_f : na ≠ nf).
    { intros ->. apply (NoDup_walk_notin_after _ _ _ _ Hnd).
      apply elem_of_walk_middle. }
    rewrite getCaretOffset_loop_before; [| done |].
    2:{ intros n Hn. rewrite Hanchor, Hfocus. split.
        - intros [= ->]. by eapply NoDup_walk_notin_before.
        - intros [= ->]. apply (NoDup_walk_disjoint _ _ nf Hnd Hn).
          apply (elem_of_walk_middle ((na, data_a) :: mid)). }
    simpl. rewrite Hrange, Hanchor, Hfocus. simpl.
    rewrite bool_decide_eq_true_2 by done.
    rewrite bool_decide_eq_false_2 by congruence.
    rewrite getCaretOffset_loop_between; [| done |].
    2:{ intros n Hn. rewrite Hfocus. intros [= ->].
        apply NoDup_walk_drop in Hnd. simpl in Hnd.
        apply NoDup_cons in Hnd as [_ Hnd].
        change (NoDup (mid ++ (nf, data_f) :: after_f).*1) in Hnd.
        by eapply NoDup_walk_notin_before. }
    simpl. rewrite Hrange, Hfocus. simpl.
    rewrite bool_decide_eq_true_2 by done.
    rewrite logicalText_app, logicalText_cons, !length_append.
    do 2 f_equal. lia.
Qed.

Lemma getCaretOffsetWithin_forward_range_witness :
  let sel := {| anchorNode := Some (0, [0]); anchorOffset := 2;
                focusNode := Some (0, [2]); focusOffset := 1 |} in
  utils.getCaretOffsetWithin 0 (highlighted_page sel)
  = (Normal {| start := 2; end_ := 13 |}, highlighted_page sel).
Proof.
  intros sel.
  apply (getCaretOffsetWithin_forward_range (highlighted_page sel) 0
           [] (0, [0]) "check " [((0, [1; 0]), "#topic"); ((0, [2]), " ok")]
           [((0, [0]), "check "); ((0, [1; 0]), "#topic")] (0, [2]) " ok" []);
    try reflexivity.
  simpl. lia.
Defined.

(** X3. A range selected backward, with its focus in a text node before the
    text node of its anchor: the loop stops at the focus's node, before it
    meets the anchor, so [start] is the length of the text up to the end of
    the focus's node, whatever the anchor, and [end] is the length before
    the focus's node plus the focus offset. *)
Theorem getCaretOffsetWithin_backward_range w el
    before_a na data_a after_a before_f nf data_f after_f :
  createTreeWalker el (childNodes (elements w !!! el))
  = before_a ++ (na, data_a) :: after_a →
  createTreeWalker el (childNodes (elements w !!! el))
  = before_f ++ (nf, data_f) :: after_f →
  anchorNode (selection w) = Some na →
  focusNode (selection w) = Some nf →
  length before_f < length before_a →
  utils.getCaretOffsetWithin el w
  = (Normal {| start := String.length (logicalText before_f)
                        + String.length data_f;
               end_ := String.length (logicalText before_f)
                       + focusOffset (selection w) |}, w).
Proof.
  intros Hwa Hwf Hanchor Hfocus Hlt.
  rewrite getCaretOffsetWithin_run. f_equal. unfold caret_of.
  pose proof (NoDup_createTreeWalker el (childNodes (elements w !!! el))) as Hnd.
  set (sel := selection w) in *.
  pose proof Hwa as Hwa'. rewrite Hwf in Hwa'.
  apply app_cons_split in Hwa' as (mid & -> & ->); [| lia].
  rewrite Hwf in Hnd |- *.
  assert (Hne : nf ≠ na).
  { intros ->. apply (NoDup_walk_notin_after _ _ _ _ Hnd).
    apply elem_of_walk_middle. }
  assert (Hrange : isCollapsed sel = false).
  { apply bool_decide_eq_false_2. intros [Heq _]. congruence. }
  rewrite getCaretOffset_loop_before; [| done |].
  2:{ intros n Hn. rewrite Hanchor, Hfocus. split.
      - intros [= ->]. apply (NoDup_walk_disjoint _ _ na Hnd Hn).
        apply (elem_of_walk_middle ((nf, data_f) :: mid)).
      - intros [= ->]. by eapply NoDup_walk_notin_before. }
  simpl. rewrite Hrange, Hanchor, Hfocus. simpl.
  rewrite bool_decide_eq_false_2 by congruence.
  by rewrite bool_decide_eq_true_2.
Qed.

Lemma getCaretOffsetWithin_backward_range_witness :
  let sel := {| anchorNode := Some (0, [2]); anchorOffset := 1;
                focusNode := Some (0, [0]); focusOffset := 2 |} in
  utils.getCaretOffsetWithin 0 (highlighted_page sel)
  = (Normal {| start := 6; end_ := 2 |}, highlighted_page sel).
Proof.
  intros sel.
  apply (getCaretOffsetWithin_backward_range (highlighted_page sel) 0
           [((0, [0]), "check "); ((0, [1; 0]), "#topic")] (0, [2]) " ok" []
           [] (0, [0]) "check " [((0, [1; 0]), "#topic"); ((0, [2]), " ok")]);
    try reflexivity.
  simpl. lia.
Defined.

(** X4. A caret that is in no text node of the element (no selection at
    all, a caret elsewhere in the page, a caret on an element node): the
    loop never meets the anchor, and the result is [start] = the length of
    the whole logical text and [end] = 0. *)
Theorem getCaretOffsetWithin_caret_elsewhere w el :
  isCollapsed (selection w) = true →
  (∀ n, n ∈ (createTreeWalker el (childNodes (elements w !!! el))).*1 →
        Some n ≠ anchorNode (selection w)) →
  utils.getCaretOffsetWithin el w
  = (Normal {| start := String.length (text_of w el); end_ := 0 |}, w).
Proof.
  intros Hcollapsed Hnot. rewrite getCaretOffsetWithin_run. f_equal.
  unfold caret_of, text_of.
  revert Hnot. generalize (createTreeWalker el (childNodes (elements w !!! el))).
  intros walk.
  assert (Hloop : ∀ pos_start,
    (∀ n, n ∈ walk.*1 → Some n ≠ anchorNode (selection w)) →
    getCaretOffset_loop (selection w) walk pos_start 0 false
    = {| start := pos_start + String.length (logicalText walk); end_ := 0 |}).
  { induction walk as [|[n0 data0] walk IH]; intros s Hnot.
    - simpl. change (String.length (logicalText [])) with 0. by rewrite Nat.add_0_r.
    - simpl. rewrite Hcollapsed. simpl.
      rewrite bool_decide_eq_false_2 by (apply Hnot; simpl; by left). simpl.
      rewrite IH by (intros n Hn; apply Hnot; simpl; by right).
      rewrite logicalText_cons, length_append. f_equal. lia. }
  intros Hnot. by rewrite Hloop.
Qed.

Lemma getCaretOffsetWithin_caret_elsewhere_witness :
  utils.getCaretOffsetWithin 0 (highlighted_page no_selection)
  = (Normal {| start := 15; end_ := 0 |}, highlighted_page no_selection).
Proof.
  apply (getCaretOffsetWithin_caret_elsewhere (highlighted_page no_selection) 0).
  - reflexivity.
  - intros n _. discriminate.
Defined.

(** ** Restoring a caret ([utils.setCaretPositionWithin]) *)

Lemma setCaretPosition_loop_first before n data after : ∀ index currentPos,
  (before = [] ∨ currentPos + Z.of_nat (String.length (logicalText before)) < index)%Z →
  (index ≤ currentPos + Z.of_nat (String.length (logicalText before))
           + Z.of_nat (String.length data))%Z →
  setCaretPosition_loop (before ++ (n, data) :: after) index currentPos
  = Some (n, data,
          (index - (currentPos + Z.of_nat (String.length (logicalText before))))%Z).
Proof.
  induction before as [|[n0 data0] before IH]; intros index cp Hfirst Hle.
  - change (String.length (logicalText [])) with 0 in *. simpl.
    destruct (Z.geb_spec (cp + Z.of_nat (String.length data)) index); [| lia].
    do 2 f_equal. lia.
  - destruct Hfirst as [? | Hlt]; [done |].
    rewrite logicalText_cons, length_append in Hlt, Hle |- *.
    rewrite <- app_comm_cons. simpl.
    destruct (Z.geb_spec (cp + Z.of_nat (String.length data0)) index); [lia |].
    rewrite IH; [do 2 f_equal; lia | | lia].
    destruct before; [by left | right; lia].
Qed.

(** X5. Where the caret is put: in the first text node whose end is at or
    after [index], at what is left of [index] once the text nodes before it
    are counted.  So an offset on the border of two text nodes puts the
    caret at the end of the earlier one, and offset 0 puts it at the start
    of the first text node. *)
Theorem setCaretPositionWithin_places w el (index : nat) before n data after :
  createTreeWalker el (childNodes (elements w !!! el))
  = before ++ (n, data) :: after →
  before = [] ∨ String.length (logicalText before) < index →
  index ≤ String.length (logicalText before) + String.length data →
  utils.setCaretPositionWithin el (of_nat index) w
  = (Normal tt,
     set_selection
       (collapsedAt n (index - String.length (logicalText before))) w).
Proof.
  intros Hwalk Hfirst Hle. unfold utils.setCaretPositionWithin.
  rewrite isNumber_ge0_of_nat, to_Z_of_nat.
  unfold mbind, JS_bind, element. cbn beta iota. rewrite Hwalk.
  rewrite setCaretPosition_loop_first; [| destruct Hfirst; [by left | right; lia] | lia].
  unfold select_collapsed.
  assert (Hoff : before = [] ∨ String.length (logicalText before) < index) by done.
  assert (String.length (logicalText before) ≤ index).
  { destruct Hfirst as [-> | ?]; [change (String.length (logicalText [])) with 0 |]; lia. }
  destruct (Z.ltb_spec (Z.of_nat index - (0 + Z.of_nat (String.length (logicalText before)))) 0);
    [lia |].
  destruct (Z.ltb_spec (Z.of_nat (String.length data))
              (Z.of_nat index - (0 + Z.of_nat (String.length (logicalText before)))));
    [lia |].
  cbn [orb modify].
  replace (Z.to_nat (Z.of_nat index
                     - (0 + Z.of_nat (String.length (logicalText before)))))
    with (index - String.length (logicalText before)) by lia.
  reflexivity.
Qed.

Lemma setCaretPositionWithin_places_witness :
  utils.setCaretPositionWithin 0 (of_nat 6) (highlighted_page no_selection)
  = (Normal tt,
     set_selection (collapsedAt (0, [0]) 6) (highlighted_page no_selection)).
Proof.
  apply (setCaretPositionWithin_places (highlighted_page no_selection) 0 6
           [] (0, [0]) "check " [((0, [1; 0]), "#topic"); ((0, [2]), " ok")]).
  - reflexivity.
  - by left.
  - simpl. lia.
Defined.

(** ** The highlight renderer, besides *)

Lemma length_escape_one c : 1 ≤ String.length (escape_one c).
Proof. destruct c as [[] [] [] [] [] [] [] []]; vm_compute; lia. Qed.

Lemma length_escapeHTML s : String.length s ≤ String.length (utils.escapeHTML s).
Proof.
  induction s as [|c s IH]; [done |].
  rewrite escapeHTML_cons, length_append. simpl.
  pose proof (length_escape_one c). lia.
Qed.

Lemma escape_one_plain c : significant c = false → escape_one c = String c "".
Proof. destruct c as [[] [] [] [] [] [] [] []]; vm_compute; congruence. Qed.

Lemma escape_one_significant c :
  significant c = true → 4 ≤ String.length (escape_one c).
Proof. destruct c as [[] [] [] [] [] [] [] []]; vm_compute; (congruence || lia). Qed.

(** X11. Escaping never shortens a text, and it leaves a text as it is
    exactly when the text has none of the five markup-significant
    characters. *)
Theorem escapeHTML_unchanged_iff (s : string) :
  String.length s ≤ String.length (utils.escapeHTML s)
  ∧ (utils.escapeHTML s = s
     ↔ Forall (λ c, significant c = false) (list_ascii_of_string s)).
Proof.
  split; [apply length_escapeHTML |]. split.
  - intros Hfixed. apply (f_equal String.length) in Hfixed.
    induction s as [|c s IH]; [constructor |].
    rewrite escapeHTML_cons, length_append in Hfixed. simpl in Hfixed.
    pose proof (length_escapeHTML s). pose proof (length_escape_one c).
    destruct (significant c) eqn:Hc.
    + apply escape_one_significant in Hc. lia.
    + simpl. constructor; [done |]. apply IH. lia.
  - induction s as [|c s IH]; [done |]. simpl. intros Hplain.
    apply Forall_cons in Hplain as [Hc Hplain].
    by rewrite escapeHTML_cons, escape_one_plain, IH.
Qed.

(** ** [utils.extend] *)

(** X6. Merging options into defaults: a key of the options has the value
    the options give it, every other key keeps the value of the defaults,
    and no other key appears; merging no options changes nothing. *)
Theorem extend_overrides (defaults options : gmap string value) :
  (∀ key v, options !! key = Some v →
            utils.extend defaults options !! key = Some v)
  ∧ (∀ key, options !! key = None →
            utils.extend defaults options !! key = defaults !! key)
  ∧ dom (utils.extend defaults options) = dom options ∪ dom defaults
  ∧ utils.extend defaults ∅ = defaults.
Proof.
  split_and!.
  - intros key v Hkey. by rewrite extend_lookup, Hkey.
  - intros key Hkey. by rewrite extend_lookup, Hkey.
  - apply set_eq. intros key. rewrite elem_of_union, !elem_of_dom, extend_lookup.
    destruct (options !! key) as [v|] eqn:Hkey.
    + split; [left | intros _]; by eexists.
    + split; [by right | intros [[? ?] | ?]; done].
  - apply map_eq. intros key. by rewrite extend_lookup, lookup_empty.
Qed.

(** ** Unsubscribing ([unbind], [detachEvent]) *)

Lemma detachEvent_clears w evtName :
  is_Some (events w !! evtName) →
  detachEvent evtName w
  = (Normal tt, set_events (<[evtName := VUndefined]> (events w)) w).
Proof.
  intros Hsome. unfold detachEvent, mbind, JS_bind, get. cbn beta iota.
  by rewrite bool_decide_eq_true_2 by done.
Qed.

(** X7. [unbind(evtName)]: for a name other than ["change"] and
    ["destroy"] it throws the error of an unsupported event and writes
    nothing; for one of the two names it empties the slot of that name, so
    that [trigger] for the name applies no callback any more, and it leaves
    the slot of the other name as it is. *)
Theorem unbind_clears (w : World) (this : nat) (evtName : string) :
  events_ok (events w) →
  (evtName ≠ "change" → evtName ≠ "destroy" →
   unbind this evtName w = (Throw (Error_NoSupportForEvent evtName), w))
  ∧ (evtName = "change" ∨ evtName = "destroy" →
     let w' := exec (unbind this evtName) w in
     unbind this evtName w = (Normal tt, w')
     ∧ (∀ ctx, trigger evtName ctx w' = (Normal tt, w'))
     ∧ (∀ other, other ≠ evtName → events w' !! other = events w !! other)
     ∧ events_ok (events w')).
Proof.
  intros Hok. change (unbind this evtName) with (detachEvent evtName). split.
  - intros Hc Hd. unfold detachEvent, mbind, JS_bind, get. cbn beta iota.
    rewrite bool_decide_eq_false_2; [done |].
    rewrite (events_ok_names _ _ Hok). by intros [? | ?].
  - intros Hname w'.
    assert (Hsome : is_Some (events w !! evtName))
      by by apply (events_ok_names _ _ Hok).
    assert (Hw' : w' = set_events (<[evtName := VUndefined]> (events w)) w).
    { unfold w', exec. by rewrite detachEvent_clears. }
    split_and!.
    + by rewrite detachEvent_clears, Hw'.
    + intros ctx. rewrite Hw'.
      unfold trigger, events_get, mbind, JS_bind, get, mret, JS_ret.
      cbn beta iota. cbn [events set_events]. by rewrite lookup_insert_eq.
    + intros other Hother. rewrite Hw'. cbn [events set_events].
      by rewrite lookup_insert_ne.
    + unfold w'. by apply detachEvent_events_ok.
Qed.

Lemma unbind_clears_witness :
  let w := exec (on 0 "change" (VFunction (UserFn 1));;
                 on 0 "destroy" (VFunction (UserFn 2))) (page "hello world" 5) in
  let w' := exec (unbind 0 "change") w in
  unbind 0 "foo" w = (Throw (Error_NoSupportForEvent "foo"), w)
  ∧ unbind 0 "change" w = (Normal tt, w')
  ∧ trigger "change" (VInstance 0) w' = (Normal tt, w')
  ∧ events w' !! "destroy" = events w !! "destroy".
Proof.
  intros w w'.
  assert (Hok : events_ok (events w)).
  { assert (events w = <["destroy" := VFunction (UserFn 2)]>
                         (<["change" := VFunction (UserFn 1)]> initial_events))
      as -> by reflexivity.
    apply events_ok_insert.
    - apply events_ok_insert; [apply events_ok_initial | by eexists].
    - by eexists. }
  pose proof (unbind_clears w 0 "foo" Hok) as (Hfoo & _).
  pose proof (unbind_clears w 0 "change" Hok) as (_ & Hchange).
  destruct (Hchange (or_introl eq_refl)) as (Hrun & Htrigger & Hother & _).
  split_and!.
  - by apply Hfoo.
  - exact Hrun.
  - apply Htrigger.
  - by apply Hother.
Defined.

(** ** The constructor *)

Lemma throws_only_ret {A} P (a : A) : throws_only P (mret a).
Proof. by intros w e w'. Qed.

Lemma throws_only_throw {A} (P : error → Prop) e : P e → throws_only P (@throw A e).
Proof. intros He w e' w' [= <- _]. exact He. Qed.

Lemma throws_only_bind {A B} P (m : JS A) (k : A → JS B) :
  throws_only P m → (∀ a, throws_only P (k a)) → throws_only P (m ≫= k).
Proof.
  intros Hm Hk w e w'. unfold mbind, JS_bind.
  destruct (m w) as [[a | e0] w0] eqn:Hmw.
  - apply Hk.
  - intros [= <- _]. by eapply Hm.
Qed.

Lemma throws_only_modify P f : throws_only P (modify f).
Proof. by intros w e w'. Qed.

Lemma throws_only_update_element P el f : throws_only P (update_element el f).
Proof. by intros w e w'. Qed.

Lemma throws_only_get P : throws_only P get.
Proof. by intros w e w'. Qed.

Lemma throws_only_element P el : throws_only P (element el).
Proof. by intros w e w'. Qed.

Lemma throws_only_Function_bind P hd this : throws_only P (Function_bind hd this).
Proof. by intros w e w'. Qed.

Lemma throws_only_check_token P token :
  (∀ name, P (DOMException name)) → throws_only P (check_token token).
Proof.
  intros HP w e w'. unfold check_token.
  destruct (decide (token = "")); [intros [= <- _]; apply HP |].
  destruct (has_space token); [intros [= <- _]; apply HP | done].
Qed.

Ltac throws_only :=
  repeat first
    [ apply throws_only_Function_bind
    | apply throws_only_check_token; intros ?; done
    | apply throws_only_update_element
    | apply throws_only_modify
    | apply throws_only_element
    | apply throws_only_get
    | apply throws_only_ret
    | apply throws_only_bind; [| intros ?] ].

(** Past its three tests the constructor throws none of their errors. *)
Lemma CEHighlighter_throws_only h el options :
  supports h = true → options_invalid options = false →
  throws_only
    (λ e, e ≠ Error_UnsupportedBrowser ∧ e ≠ Error_InvalidEl
          ∧ e ≠ Error_InvalidOptions)
    (CEHighlighter h (VElement el) options).
Proof.
  intros Hsupports Hvalid. unfold CEHighlighter.
  rewrite Hsupports, Hvalid. cbn [negb].
  unfold setAttribute, settings_className, classList_add, set_style,
    addEventListener.
  throws_only.
  all: repeat match goal with
       | |- throws_only _ (match ?x with _ => _ end) => destruct x
       end; throws_only.
Qed.

(** X8. The constructor's three refusals, in the order the source tests
    them, each leaving everything as it was: a host without the needed
    interfaces is refused whatever the arguments; then an [el] that is no
    HTMLElement, whatever the options; then options that are neither
    [undefined] nor [instanceof Object], that is a primitive value or an
    object without [Object.prototype] on its chain.  Absent options and
    every other object (a plain object, an array, a function) are not
    refused: whatever a construction with them throws, it is none of the
    three errors. *)
Theorem CEHighlighter_refuses (h : Host) (w : World) (el : value)
    (options : options_arg) :
  (supports h = false →
   CEHighlighter h el options w = (Throw Error_UnsupportedBrowser, w))
  ∧ (supports h = true → (∀ id, el ≠ VElement id) →
     CEHighlighter h el options w = (Throw Error_InvalidEl, w))
  ∧ (supports h = true → ∀ id, el = VElement id →
     (∀ p, options = OptionsPrimitive p →
        CEHighlighter h el options w = (Throw Error_InvalidOptions, w))
     ∧ (∀ own, options = OptionsForeignObject own →
        CEHighlighter h el options w = (Throw Error_InvalidOptions, w))
     ∧ (options = OptionsUndefined ∨ (∃ own, options = OptionsObject own) →
        ∀ e w', CEHighlighter h el options w = (Throw e, w') →
                e ≠ Error_UnsupportedBrowser ∧ e ≠ Error_InvalidEl
                ∧ e ≠ Error_InvalidOptions)).
Proof.
  split_and!.
  - unfold CEHighlighter. by intros ->.
  - unfold CEHighlighter. intros -> Hel. cbn [negb].
    destruct el; try done. by destruct (Hel id).
  - intros Hsupports id ->. split_and!.
    + intros p ->. unfold CEHighlighter. by rewrite Hsupports.
    + intros own ->. unfold CEHighlighter. by rewrite Hsupports.
    + intros Hvalid e w'.
      apply (CEHighlighter_throws_only h id options Hsupports).
      by destruct Hvalid as [-> | [own ->]].
Qed.

Lemma update_element_run el f w :
  update_element el f w = (Normal tt, updated el f w).
Proof. reflexivity. Qed.

Lemma element_updated el f w :
  elements (updated el f w) !!! el = f (elements w !!! el).
Proof. unfold updated. cbn [elements set_elements]. apply lookup_total_insert_eq. Qed.

Lemma Function_bind_run hd this w :
  Function_bind hd this w
  = (Normal (BoundFn (length (bound w))), set_bound (bound w ++ [(hd, this)]) w).
Proof. reflexivity. Qed.

Lemma elastic_branch {A} (x : option value) (a b : A) :
  match x with Some (VBool true) => a | _ => b end
  = if elastic_is_true x then a else b.
Proof. by destruct x as [[| |[]| | | | | | |]|]. Qed.

(** The sizing of the constructor writes styles only. *)
Lemma CEHighlighter_sizing el (x : option value) (e5 : HTMLElement) w :
  ∃ new_style,
    (match x with
     | Some (VBool true) =>
         set_style el "display" "inline-block";;
         set_style el "minHeight" (px (offsetHeight e5));;
         set_style el "height" "auto"
     | _ =>
         set_style el "height" (px (offsetHeight e5));;
         set_style el "overflow" "auto"
     end) w
    = (Normal tt, updated el (λ e, with_style (new_style (style e)) e) w)
    ∧ ∀ st, new_style st !! "whiteSpace" = st !! "whiteSpace".
Proof.
  rewrite elastic_branch. destruct (elastic_is_true x).
  - exists (λ st, <["height" := "auto"]>
                   (<["minHeight" := px (offsetHeight e5)]>
                      (<["display" := "inline-block"]> st))).
    split; [| intros st; by rewrite !lookup_insert_ne by done].
    unfold set_style.
    rewrite (bind_Normal _ _ _ _ _ (update_element_run _ _ _)).
    rewrite (bind_Normal _ _ _ _ _ (update_element_run _ _ _)).
    rewrite update_element_run. f_equal.
    unfold updated. cbn [elements set_elements].
    rewrite !lookup_total_insert_eq, !insert_insert_eq. reflexivity.
  - exists (λ st, <["overflow" := "auto"]>
                   (<["height" := px (offsetHeight e5)]> st)).
    split; [| intros st; by rewrite !lookup_insert_ne by done].
    unfold set_style.
    rewrite (bind_Normal _ _ _ _ _ (update_element_run _ _ _)).
    rewrite update_element_run. f_equal.
    unfold updated. cbn [elements set_elements].
    rewrite !lookup_total_insert_eq, !insert_insert_eq. reflexivity.
Qed.

Lemma modify_run f w : modify f w = (Normal tt, f w).
Proof. reflexivity. Qed.

Lemma get_run w : get w = (Normal w, w).
Proof. reflexivity. Qed.

Lemma element_run el w : element el w = (Normal (elements w !!! el), w).
Proof. reflexivity. Qed.

Lemma settings_className_run h w :
  settings_className h w
  = (Normal (ToString h (default VUndefined (settings w !! "className"))), w).
Proof. reflexivity. Qed.

Lemma check_token_run token w :
  token ≠ "" → has_space token = false → check_token token w = (Normal tt, w).
Proof.
  intros Hne Hspace. unfold check_token.
  rewrite decide_False by done. by rewrite Hspace.
Qed.

Lemma set_style_run el property v w :
  set_style el property v w
  = (Normal tt, updated el (λ e, with_style (<[property := v]> (style e)) e) w).
Proof. reflexivity. Qed.

Lemma classList_add_run el token w :
  token ≠ "" → has_space token = false →
  classList_add el token w
  = (Normal tt,
     updated el (λ e, if decide (token ∈ classList e) then e
                      else with_classList (classList e ++ [token]) e) w).
Proof.
  intros Hne Hspace. unfold classList_add.
  by rewrite (bind_Normal _ _ _ _ _ (check_token_run token w Hne Hspace)).
Qed.

(** Registering a function object that is not registered yet. *)
Lemma addEventListener_new el type f w :
  (type, f) ∉ listeners (elements w !!! el) →
  addEventListener el type f w
  = (Normal tt,
     updated el (λ e, with_listeners (listeners e ++ [(type, f)]) e) w).
Proof.
  intros Hnew. unfold addEventListener. rewrite update_element_run.
  unfold updated. by rewrite !decide_False by done.
Qed.

(** The state of the element [el] and of the function table after the
    constructor has written the options and has passed the class token
    test. *)
Lemma CEHighlighter_run h w el options className :
  supports h = true → options_invalid options = false →
  ToString h (default VUndefined
                (utils.extend (settings w) (own_properties options) !! "className"))
  = className →
  className ≠ "" → has_space className = false →
  listeners_bound w el →
  ∃ w', CEHighlighter h (VElement el) options w = (Normal el, w')
        ∧ listeners (elements w' !!! el)
          = listeners (elements w !!! el)
            ++ [("paste", BoundFn (length (bound w)));
                ("input", BoundFn (length (bound w) + 1));
                ("keypress", BoundFn (length (bound w) + 2))]
        ∧ bound w' = bound w ++ [(OnPaste, el); (OnInput, el); (OnKeyPress, el)]
        ∧ attributes (elements w' !!! el) !! "contenteditable" = Some "true"
        ∧ className ∈ classList (elements w' !!! el)
        ∧ style (elements w' !!! el) !! "whiteSpace" = Some "pre-wrap"
        ∧ childNodes (elements w' !!! el) = childNodes (elements w !!! el)
        ∧ settings w' = utils.extend (settings w) (own_properties options)
        ∧ events w' = events w
        ∧ selection w' = selection w
        ∧ calls w' = calls w.
Proof.
  intros Hsupports Hvalid HclassName Hne Hspace Hbound.
  unfold CEHighlighter. rewrite Hsupports, Hvalid. cbn [negb].
  rewrite (bind_Normal _ _ _ _ _ (modify_run _ _)).
  set (w1 := set_settings _ w).
  unfold setAttribute. rewrite (bind_Normal _ _ _ _ _ (update_element_run _ _ _)).
  set (w2 := updated el _ w1).
  rewrite (bind_Normal _ _ _ _ _ (settings_className_run h w2)).
  change (settings w2) with (utils.extend (settings w) (own_properties options)).
  rewrite HclassName.
  rewrite (bind_Normal _ _ _ _ _ (classList_add_run el className w2 Hne Hspace)).
  set (w3 := updated el _ w2).
  rewrite (bind_Normal _ _ _ _ _ (set_style_run _ _ _ _)).
  set (w4 := updated el _ w3).
  rewrite (bind_Normal _ _ _ _ _ (set_style_run _ _ _ _)).
  set (w5 := updated el _ w4).
  rewrite (bind_Normal _ _ _ _ _ (get_run w5)).
  rewrite (bind_Normal _ _ _ _ _ (element_run el w5)).
  destruct (CEHighlighter_sizing el (settings w5 !! "elastic")
              (elements w5 !!! el) w5) as (new_style & Hsizing & HwhiteSpace).
  rewrite (bind_Normal _ _ _ _ _ Hsizing).
  set (w6 := updated el _ w5).
  (* the element so far: its listeners are those it had *)
  assert (Hlisteners6 : listeners (elements w6 !!! el) = listeners (elements w !!! el)).
  { unfold w6, w5, w4, w3, w2. rewrite !element_updated.
    by destruct (decide (className ∈ classList _)). }
  rewrite (bind_Normal _ _ _ _ _ (Function_bind_run OnPaste el w6)).
  change (bound w6) with (bound w).
  set (w7 := set_bound _ w6).
  assert (Hnew7 : ("paste", BoundFn (length (bound w)))
                   ∉ listeners (elements w7 !!! el)).
  { change (elements w7) with (elements w6). rewrite Hlisteners6.
    intros Hin. apply Hbound in Hin. lia. }
  rewrite (bind_Normal _ _ _ _ _ (addEventListener_new el "paste" _ w7 Hnew7)).
  set (w8 := updated el _ w7).
  rewrite (bind_Normal _ _ _ _ _ (Function_bind_run OnInput el w8)).
  change (bound w8) with (bound w ++ [(OnPaste, el)]).
  set (w9 := set_bound _ w8).
  assert (Hlisteners9 : listeners (elements w9 !!! el)
                        = listeners (elements w !!! el)
                          ++ [("paste", BoundFn (length (bound w)))]).
  { change (elements w9) with (elements w8). unfold w8.
    rewrite element_updated. cbn [listeners with_listeners].
    change (elements w7) with (elements w6). by rewrite Hlisteners6. }
  assert (Hnew9 : ("input", BoundFn (length (bound w ++ [(OnPaste, el)])))
                   ∉ listeners (elements w9 !!! el)).
  { rewrite Hlisteners9, length_app. cbn [length].
    intros [Hin | Hin]%elem_of_app.
    - apply Hbound in Hin. lia.
    - apply list_elem_of_singleton in Hin. discriminate. }
  rewrite (bind_Normal _ _ _ _ _ (addEventListener_new el "input" _ w9 Hnew9)).
  set (w10 := updated el _ w9).
  rewrite (bind_Normal _ _ _ _ _ (Function_bind_run OnKeyPress el w10)).
  change (bound w10) with ((bound w ++ [(OnPaste, el)]) ++ [(OnInput, el)]).
  set (w11 := set_bound _ w10).
  assert (Hlisteners11 : listeners (elements w11 !!! el)
                         = (listeners (elements w !!! el)
                            ++ [("paste", BoundFn (length (bound w)))])
                           ++ [("input", BoundFn (length (bound w) + 1))]).
  { change (elements w11) with (elements w10). unfold w10.
    rewrite element_updated. cbn [listeners with_listeners].
    by rewrite Hlisteners9, length_app. }
  assert (Hnew11 : ("keypress",
                     BoundFn (length ((bound w ++ [(OnPaste, el)]) ++ [(OnInput, el)])))
                    ∉ listeners (elements w11 !!! el)).
  { rewrite Hlisteners11, !length_app. cbn [length].
    intros [[Hin | Hin]%elem_of_app | Hin]%elem_of_app.
    - apply Hbound in Hin. lia.
    - apply list_elem_of_singleton in Hin. discriminate.
    - apply list_elem_of_singleton in Hin. discriminate. }
  rewrite (bind_Normal _ _ _ _ _ (addEventListener_new el "keypress" _ w11 Hnew11)).
  set (w12 := updated el _ w11).
  exists w12. split; [reflexivity |].
  assert (Hel12 : ∀ (A : Type) (field : HTMLElement → A),
    (∀ x e, field (with_listeners x e) = field e) →
    field (elements w12 !!! el) = field (elements w6 !!! el)).
  { intros A field Hfield. unfold w12. rewrite element_updated, Hfield.
    change (elements w11) with (elements w10). unfold w10.
    rewrite element_updated, Hfield.
    change (elements w9) with (elements w8). unfold w8.
    by rewrite element_updated, Hfield. }
  split_and!.
  - unfold w12. rewrite element_updated. cbn [listeners with_listeners].
    rewrite Hlisteners11, !length_app. cbn [length].
    rewrite <- !app_assoc. simpl.
    by replace (length (bound w) + 1 + 1) with (length (bound w) + 2) by lia.
  - change (bound w12) with
      (((bound w ++ [(OnPaste, el)]) ++ [(OnInput, el)]) ++ [(OnKeyPress, el)]).
    by rewrite <- !app_assoc.
  - rewrite (Hel12 _ attributes) by done.
    unfold w6, w5, w4, w3, w2. rewrite !element_updated.
    destruct (decide (className ∈ classList _)); apply lookup_insert_eq.
  - rewrite (Hel12 _ classList) by done.
    unfold w6, w5, w4, w3. rewrite !element_updated.
    cbn [classList with_style].
    destruct (decide (className ∈ classList (elements w2 !!! el))); [done |].
    apply elem_of_app. right. by left.
  - rewrite (Hel12 _ style) by done.
    unfold w6. rewrite element_updated. cbn [style with_style].
    rewrite HwhiteSpace. unfold w5, w4. rewrite !element_updated.
    cbn [style with_style]. rewrite lookup_insert_ne by done.
    apply lookup_insert_eq.
  - rewrite (Hel12 _ childNodes) by done.
    unfold w6, w5, w4, w3, w2. rewrite !element_updated.
    by destruct (decide (className ∈ classList _)).
  - reflexivity.
  - reflexivity.
  - reflexivity.
  - reflexivity.
Qed.

Lemma listeners_bound_after w w' el extra :
  listeners_bound w el →
  listeners (elements w' !!! el)
  = listeners (elements w !!! el)
    ++ [("paste", BoundFn (length (bound w)));
        ("input", BoundFn (length (bound w) + 1));
        ("keypress", BoundFn (length (bound w) + 2))] →
  bound w' = bound w ++ extra → length extra = 3 →
  listeners_bound w' el.
Proof.
  intros Hbound Hlisteners Hbound' Hextra type i Hin.
  rewrite Hlisteners in Hin. rewrite Hbound', length_app, Hextra.
  apply elem_of_app in Hin as [Hin | Hin]; [apply Hbound in Hin; lia |].
  repeat (apply elem_of_cons in Hin as [Hin | Hin];
          [injection Hin as _ ->; lia |]).
  by apply not_elem_of_nil in Hin.
Qed.

(** X9. A construction that passes its tests makes the element editable,
    gives it the class of the settings and registers three listeners,
    [paste], [input] and [keypress], each a function object made for this
    call; the content of the element, the selection and the subscriptions
    are left alone.  Constructing again on the same element registers three
    more, so that every event is then handled twice. *)
Theorem CEHighlighter_registers h w el options className :
  supports h = true → options_invalid options = false →
  ToString h (default VUndefined
                (utils.extend (settings w) (own_properties options) !! "className"))
  = className →
  className ≠ "" → has_space className = false →
  listeners_bound w el →
  ∃ w1 w2,
    CEHighlighter h (VElement el) options w = (Normal el, w1)
    ∧ listeners (elements w1 !!! el)
      = listeners (elements w !!! el)
        ++ [("paste", BoundFn (length (bound w)));
            ("input", BoundFn (length (bound w) + 1));
            ("keypress", BoundFn (length (bound w) + 2))]
    ∧ attributes (elements w1 !!! el) !! "contenteditable" = Some "true"
    ∧ className ∈ classList (elements w1 !!! el)
    ∧ childNodes (elements w1 !!! el) = childNodes (elements w !!! el)
    ∧ selection w1 = selection w
    ∧ events w1 = events w
    ∧ CEHighlighter h (VElement el) options w1 = (Normal el, w2)
    ∧ listeners (elements w2 !!! el)
      = listeners (elements w !!! el)
        ++ [("paste", BoundFn (length (bound w)));
            ("input", BoundFn (length (bound w) + 1));
            ("keypress", BoundFn (length (bound w) + 2));
            ("paste", BoundFn (length (bound w) + 3));
            ("input", BoundFn (length (bound w) + 4));
            ("keypress", BoundFn (length (bound w) + 5))].
Proof.
  intros Hsupports Hvalid HclassName Hne Hspace Hbound.
  destruct (CEHighlighter_run h w el options className)
    as (w1 & Hrun1 & Hl1 & Hb1 & Hattr1 & Hclass1 & _ & Hnodes1 & Hsettings1
        & Hevents1 & Hsel1 & _); try done.
  destruct (CEHighlighter_run h w1 el options className)
    as (w2 & Hrun2 & Hl2 & _); try done.
  { rewrite Hsettings1, !extend_lookup.
    rewrite extend_lookup in HclassName.
    by destruct (own_properties options !! "className"). }
  { by eapply listeners_bound_after. }
  exists w1, w2. split_and!; try done.
  rewrite Hl2, Hl1, Hb1, length_app. cbn [length].
  rewrite <- app_assoc. simpl. do 5 f_equal.
  repeat (f_equal; try lia).
Qed.

Lemma CEHighlighter_registers_witness :
  let w := page "hello world" 5 in
  ∃ w1 w2,
    CEHighlighter plain_host (VElement 0) OptionsUndefined w = (Normal 0, w1)
    ∧ listeners (elements w1 !!! 0)
      = listeners (elements w !!! 0)
        ++ [("paste", BoundFn (length (bound w)));
            ("input", BoundFn (length (bound w) + 1));
            ("keypress", BoundFn (length (bound w) + 2))]
    ∧ attributes (elements w1 !!! 0) !! "contenteditable" = Some "true"
    ∧ "cehighlighter" ∈ classList (elements w1 !!! 0)
    ∧ childNodes (elements w1 !!! 0) = childNodes (elements w !!! 0)
    ∧ selection w1 = selection w
    ∧ events w1 = events w
    ∧ CEHighlighter plain_host (VElement 0) OptionsUndefined w1 = (Normal 0, w2)
    ∧ listeners (elements w2 !!! 0)
      = listeners (elements w !!! 0)
        ++ [("paste", BoundFn (length (bound w)));
            ("input", BoundFn (length (bound w) + 1));
            ("keypress", BoundFn (length (bound w) + 2));
            ("paste", BoundFn (length (bound w) + 3));
            ("input", BoundFn (length (bound w) + 4));
            ("keypress", BoundFn (length (bound w) + 5))].
Proof.
  intros w.
  apply (CEHighlighter_registers plain_host w 0 OptionsUndefined "cehighlighter").
  - reflexivity.
  - reflexivity.
  - reflexivity.
  - discriminate.
  - reflexivity.
  - intros type i Hin. vm_compute in Hin. by apply not_elem_of_nil in Hin.
Defined.

(** X12. A construction whose class is no class token (the empty string, or
    a string with white space) fails in [classList.add], after the options
    have been written into the settings and the element has been made
    editable, and before any listener is registered: the exception leaves
    the settings changed and the element editable without handlers. *)
Theorem CEHighlighter_bad_className h w el options className :
  supports h = true → options_invalid options = false →
  ToString h (default VUndefined
                (utils.extend (settings w) (own_properties options) !! "className"))
  = className →
  className = "" ∨ has_space className = true →
  ∃ name w',
    CEHighlighter h (VElement el) options w = (Throw (DOMException name), w')
    ∧ settings w' = utils.extend (settings w) (own_properties options)
    ∧ attributes (elements w' !!! el) !! "contenteditable" = Some "true"
    ∧ listeners (elements w' !!! el) = listeners (elements w !!! el)
    ∧ classList (elements w' !!! el) = classList (elements w !!! el)
    ∧ bound w' = bound w.
Proof.
  intros Hsupports Hvalid HclassName Hbad.
  unfold CEHighlighter. rewrite Hsupports, Hvalid. cbn [negb].
  rewrite (bind_Normal _ _ _ _ _ (modify_run _ _)).
  set (w1 := set_settings _ w).
  unfold setAttribute. rewrite (bind_Normal _ _ _ _ _ (update_element_run _ _ _)).
  set (w2 := updated el _ w1).
  rewrite (bind_Normal _ _ _ _ _ (settings_className_run h w2)).
  change (settings w2) with (utils.extend (settings w) (own_properties options)).
  rewrite HclassName.
  assert (Hcheck : ∃ name, check_token className w2 = (Throw (DOMException name), w2)).
  { unfold check_token. destruct (decide (className = "")); [by eexists |].
    destruct Hbad as [? | ->]; [done | by eexists]. }
  destruct Hcheck as [name Hcheck].
  exists name, w2. split.
  - apply bind_Throw. unfold classList_add. by apply bind_Throw.
  - unfold w2. rewrite element_updated. split_and!; try reflexivity.
    apply lookup_insert_eq.
Qed.

Lemma CEHighlighter_bad_className_witness :
  ∃ name w',
    CEHighlighter plain_host (VElement 0)
      (OptionsObject {[ "className" := VString "" ]}) (page "hello world" 5)
    = (Throw (DOMException name), w')
    ∧ settings w' = utils.extend (settings (page "hello world" 5))
                      (own_properties (OptionsObject {[ "className" := VString "" ]}))
    ∧ attributes (elements w' !!! 0) !! "contenteditable" = Some "true"
    ∧ listeners (elements w' !!! 0) = listeners (elements (page "hello world" 5) !!! 0)
    ∧ classList (elements w' !!! 0) = classList (elements (page "hello world" 5) !!! 0)
    ∧ bound w' = bound (page "hello world" 5).
Proof.
  apply (CEHighlighter_bad_className plain_host (page "hello world" 5) 0
           (OptionsObject {[ "className" := VString "" ]}) "").
  - reflexivity.
  - reflexivity.
  - reflexivity.
  - by left.
Defined.

(** ** The deferred work of [onInput] *)

(** X10. The function [onInput] defers: it captures the offsets, assigns
    to the element the highlighted markup of its text, restores the caret at
    the captured [start] and applies the [change] callback once.  For a
    host whose parser shows the highlighted text as the text it was, the
    logical text is unchanged and the caret is again at [start], collapsed,
    also when a range was selected. *)
Theorem onInput_deferred_keeps_caret h w el regexs :
  settings w !! "regexs" = Some (VRegexs regexs) →
  events_ok (events w) →
  start (caret_of w el) ≤ String.length (text_of w el) →
  logicalText
    (createTreeWalker el (parseHTML h (utils.markup h regexs (text_of w el))))
  = text_of w el →
  ∃ w', onInput_deferred h el w = (Normal tt, w')
        ∧ childNodes (elements w' !!! el)
          = parseHTML h (utils.markup h regexs (text_of w el))
        ∧ text_of w' el = text_of w el
        ∧ caret_of w' el = {| start := start (caret_of w el);
                              end_ := start (caret_of w el) |}
        ∧ calls w' = calls w ++ fired w "change" (VInstance el)
        ∧ defaultPrevented w' = defaultPrevented w.
Proof.
  intros Hregexs Hevents Hstart Hrender. unfold onInput_deferred.
  rewrite (bind_Normal _ _ _ _ _ (getCaretOffsetWithin_run el w)).
  rewrite (bind_Normal _ _ _ _ _ (highlight_run h el w regexs Hregexs)).
  set (w1 := after_innerHTML h el _ w).
  assert (Htext1 : text_of w1 el = text_of w el)
    by (unfold w1; by rewrite text_of_after_innerHTML).
  destruct (restore_then_capture w1 el (start (caret_of w el)))
    as (sel & Hset & Hcaret); [by rewrite Htext1 |].
  rewrite (bind_Normal _ _ _ _ _ Hset).
  rewrite (trigger_run "change" (VInstance el) (set_selection sel w1) Hevents).
  eexists. split; [reflexivity |]. split_and!; try done.
  cbn [elements set_calls set_selection]. unfold w1.
  apply childNodes_after_innerHTML.
Qed.

Lemma onInput_deferred_keeps_caret_witness :
  let w := highlighted_page (collapsedAt (0, [1; 0]) 3) in
  ∃ w', onInput_deferred newline_host 0 w = (Normal tt, w')
        ∧ childNodes (elements w' !!! 0)
          = parseHTML newline_host
              (utils.markup newline_host default_regexs (text_of w 0))
        ∧ text_of w' 0 = text_of w 0
        ∧ caret_of w' 0 = {| start := start (caret_of w 0);
                             end_ := start (caret_of w 0) |}
        ∧ calls w' = calls w ++ fired w "change" (VInstance 0)
        ∧ defaultPrevented w' = defaultPrevented w.
Proof.
  intros w.
  apply (onInput_deferred_keeps_caret newline_host w 0 default_regexs).
  - reflexivity.
  - apply events_ok_initial.
  - vm_compute. lia.
  - reflexivity.
Defined.

(** In that example the three text nodes of the element give way to the one
    text node the host parses from the markup, and the caret, which was at
    offset 3 of the second node, is at offset 9 of the new one. *)
Example onInput_deferred_rewrites_the_tree :
  let w := highlighted_page (collapsedAt (0, [1; 0]) 3) in
  let w' := exec (onInput_deferred newline_host 0) w in
  childNodes (elements w !!! 0)
  = [TextNode "check "; ElementNode [TextNode "#topic"]; TextNode " ok"]
  ∧ childNodes (elements w' !!! 0) = [TextNode "check #topic ok"]
  ∧ selection w' = collapsedAt (0, [0]) 9.
Proof. vm_compute. split_and!; reflexivity. Qed.

(** ** One table of subscriptions for all instances *)

(** X13. The table of subscriptions belongs to the module, not to the
    object [on] is called on: a [destroy] callback subscribed through one
    instance is applied when any other instance is destroyed, with that
    other instance as its [this]. *)
Theorem destroy_callback_of_other_instance h w (a b : nat) f className :
  events_ok (events w) →
  ToString h (default VUndefined (settings w !! "className")) = className →
  className ≠ "" → has_space className = false →
  ∃ w1 w2,
    on a "destroy" (VFunction f) w = (Normal tt, w1)
    ∧ destroy h b w1 = (Normal tt, w2)
    ∧ calls w2 = calls w ++ [(f, VInstance b)].
Proof.
  intros Hevents HclassName Hne Hspace.
  assert (Hsome : is_Some (events w !! "destroy"))
    by (apply (events_ok_names _ _ Hevents); by right).
  set (w1 := set_events (<["destroy" := VFunction f]> (events w)) w).
  destruct (destroy_run h w1 b className)
    as (w2 & Hrun & _ & _ & Hcalls & _); try done.
  { by apply events_ok_insert. }
  exists w1, w2. split_and!.
  - unfold on. by apply attachEvent_stores.
  - exact Hrun.
  - rewrite Hcalls. unfold fired, w1. cbn [events set_events calls].
    by rewrite lookup_insert_eq.
Qed.

Lemma destroy_callback_of_other_instance_witness :
  ∃ w1 w2,
    on 0 "destroy" (VFunction (UserFn 7)) first_instance = (Normal tt, w1)
    ∧ destroy plain_host 1 w1 = (Normal tt, w2)
    ∧ calls w2 = calls first_instance ++ [(UserFn 7, VInstance 1)].
Proof.
  apply (destroy_callback_of_other_instance plain_host first_instance 0 1
           (UserFn 7) "cehighlighter").
  - assert (events first_instance = initial_events) as -> by reflexivity.
    apply events_ok_initial.
  - reflexivity.
  - discriminate.
  - reflexivity.
Defined.
